(** * Student Grade Analyzer (lecture_3/main.py)

    A shallow embedding of the menu-driven grade tracker and the
    properties of its roster operations, followed by the two functions
    of the profile script (lecture_2/main.py) that do not depend on a
    library.

    Modelling conventions.
    - The module-level list [students] is threaded explicitly: every
      operation takes the roster and returns the roster it leaves behind.
    - A student dict [{"name": ..., "grades": ...}] is the record
      [student]; the roster is a [list student] in insertion order.
    - Names are ASCII text ([string]); [capitalize] and [lower] are
      Python's [str.capitalize] and [str.lower] on ASCII letters.  On
      ASCII text [capitalize] is idempotent ([capitalize_idem]); on other
      text it need not be (it sends U+0149 to U+02BC followed by N, and
      that to U+02BC followed by n), which this model does not cover.
    - Grades are Python ints ([Z]).  A Python float is an IEEE 754
      binary64 number ([float]), carried by its exact value: every
      operation computes exactly and rounds to the nearest double, ties
      to even ([float_round]); [int / int] raises [OverflowError] where
      the quotient rounds beyond the finite doubles.  The sign of a zero
      is not kept.  [sum] over floats adds from left to right, rounding
      at each step, as CPython does up to version 3.11 (later versions
      carry a correction term along, so the overall average can differ
      from the one here in its last bit).  The [:.1f] and [:.2f]
      formatting of a printed number
      is not modelled, except that formatting an int converts it to a
      float and raises [OverflowError] when that fails: a printed line
      carries the number itself.
    - [print] appends to a list of [printed] lines; [raise] is the
      completion [Raised]. *)

From Stdlib Require Import ZArith QArith Qabs Lia Lqa Ascii String.
From stdpp Require Import base list strings.

Local Close Scope Q_scope.
Local Open Scope string_scope.
Local Open Scope list_scope.
Local Open Scope Z_scope.

(** ** ASCII case mapping *)

Module Case.

Definition is_upper (c : ascii) : bool :=
  let n := N_of_ascii c in ((65 <=? n) && (n <=? 90))%N.

Definition is_lower (c : ascii) : bool :=
  let n := N_of_ascii c in ((97 <=? n) && (n <=? 122))%N.

Definition lower_char (c : ascii) : ascii :=
  if is_upper c then ascii_of_N (N_of_ascii c + 32) else c.

Definition upper_char (c : ascii) : ascii :=
  if is_lower c then ascii_of_N (N_of_ascii c - 32) else c.

(** [str.lower] *)
Fixpoint lower (s : string) : string :=
  match s with
  | EmptyString => EmptyString
  | String c r => String (lower_char c) (lower r)
  end.

(** [str.capitalize]: first character upper-cased, the rest lower-cased. *)
Definition capitalize (s : string) : string :=
  match s with
  | EmptyString => EmptyString
  | String c r => String (upper_char c) (lower r)
  end.

(** Two names are case variants of each other when they agree up to the
    case of their letters. *)
Definition case_variant (a b : string) : Prop := lower a = lower b.

End Case.
Export Case.

(** ** Floats *)

(** A Python float: a double, carried by its exact value. *)
Inductive float : Type :=
| Finite (value : Q)
| Infinity (negative : bool)
| NaN.

(** The largest finite double, [(2 - 2^-52) * 2^1023]. *)
Definition float_max : Z := 2 ^ 1024 - 2 ^ 971.

(** Half a unit in the last place above [float_max]: from here on a value
    rounds beyond the finite doubles. *)
Definition overflow_threshold : Z := 2 ^ 1024 - 2 ^ 970.

(** [e] with [2^e <= n / d < 2^(e+1)], for positive [n] and [d]. *)
Definition binade (n d : Z) : Z :=
  let k := Z.log2 n - Z.log2 d in
  if n * 2 ^ Z.max 0 (- k) <? d * 2 ^ Z.max 0 k then k - 1 else k.

(** The integer nearest to [n / d], ties to the even one ([d] positive). *)
Definition nearest_even (n d : Z) : Z :=
  let f := n / d in
  match 2 * (n mod d) ?= d with
  | Lt => f
  | Gt => f + 1
  | Eq => if Z.even f then f else f + 1
  end.

(** The double nearest to [q] (ties to even), for [q] below the overflow
    threshold in absolute value, as a fraction in lowest terms.  The unit
    in the last place is [2^u]: 53 significant bits, and no finer than
    [2^-1074]. *)
Definition round_finite (q : Q) : Q :=
  let n := Z.abs (Qnum q) in
  let d := Zpos (Qden q) in
  if n =? 0 then 0%Q
  else
    let u := Z.max (binade n d - 52) (-1074) in
    let m := nearest_even (n * 2 ^ Z.max 0 (- u)) (d * 2 ^ Z.max 0 u) in
    let v := Qred (inject_Z (m * 2 ^ Z.max 0 u) / inject_Z (2 ^ Z.max 0 (- u))) in
    if Qnum q <? 0 then Qopp v else v.

(** Rounding to nearest, as every arithmetic operation on doubles does. *)
Definition float_round (q : Q) : float :=
  if Qle_bool (inject_Z overflow_threshold) (Qabs q)
  then Infinity (Qnum q <? 0)
  else Finite (round_finite q).

(** [x + y] on floats. *)
Definition float_add (x y : float) : float :=
  match x, y with
  | NaN, _ | _, NaN => NaN
  | Infinity s, Infinity t => if Bool.eqb s t then Infinity s else NaN
  | Infinity s, Finite _ | Finite _, Infinity s => Infinity s
  | Finite a, Finite b => float_round (a + b)
  end.

(** [val > maxval] on floats. *)
Definition Qgt_bool (a b : Q) : bool := negb (Qle_bool a b).

Definition float_gt (x y : float) : bool :=
  match x, y with
  | NaN, _ | _, NaN => false
  | Infinity true, _ => false
  | Infinity false, Infinity false => false
  | Infinity false, _ => true
  | Finite _, Infinity negative => negative
  | Finite a, Finite b => Qgt_bool a b
  end.

(** ** Data model *)

(** [{"name": name, "grades": grades}] *)
Record student : Type := Student { name : string; grades : list Z }.

Abbreviation roster := (list student).

Inductive exn : Type :=
| ValueError (msg : string)
| EOFError
| ZeroDivisionError
| OverflowError
| RecursionError.

Inductive completion : Type :=
| Returned
| Raised (e : exn).

(** One [print] call.  [Text] is a literal message; the other
    constructors are the f-strings of the report and of the top
    performer, carrying the interpolated values. *)
Inductive printed : Type :=
| Text (msg : string)
| AverageGrade (n : string) (average : float)   (* "{name}'s average grade is {average:.1f}" *)
| AverageNA (n : string)                        (* "{name}'s average grade is N/A" *)
| MaxAverage (g : Z)                            (* "Max average: {max_grade:.1f}" *)
| MinAverage (g : Z)                            (* "Min average: {min_grade:.1f}" *)
| OverallAverage (average : float)              (* "Overall average: {average:.1f}" *)
| TopPerformer (n : string) (average : float).  (* "Top performer: {name} with an average grade of {avg:.2f}" *)

Definition names (students : roster) : list string := map name students.

(** ** Roster operations *)

(** [name.capitalize() in [i["name"] for i in students]] *)
Definition is_student_exists (n : string) (students : roster) : bool :=
  existsb (String.eqb (capitalize n)) (names students).

Definition add_new_student (n : string) (students : roster)
  : roster * list printed :=
  if is_student_exists n students
  then (students, [Text "Student already exists"])
  else (students ++ [{| name := n; grades := [] |}], []).

(** The [for student in students] loop of [add_grades]: [todo] is what is
    left to visit, [i] the index of its head in [students].  On the first
    record whose name is equal to [n] the dict at index [i] is updated in
    place and the function returns; falling off the loop raises. *)
Fixpoint add_grades_loop (n : string) (gs : list Z) (i : nat)
    (todo : list student) (students : roster) : roster * completion :=
  match todo with
  | [] => (students, Raised (ValueError "Student does not exist"))
  | s :: rest =>
      if String.eqb n (name s)
      then (<[i := {| name := name s; grades := gs |}]> students, Returned)
      else add_grades_loop n gs (S i) rest students
  end.

Definition add_grades (n : string) (gs : list Z) (students : roster)
  : roster * completion :=
  add_grades_loop n gs 0 students students.

(** ** Arithmetic of the report *)

(** [float(n)] on an int, as [float / int] and the [f] formats of an int
    do it: the nearest double, or [OverflowError]. *)
Definition float_of_int (n : Z) : exn + float :=
  match float_round (inject_Z n) with
  | Finite v => inr (Finite v)
  | _ => inl OverflowError
  end.

(** [a / b] on ints: the double nearest to the exact quotient. *)
Definition int_truediv (a b : Z) : exn + float :=
  if b =? 0 then inl ZeroDivisionError
  else match float_round (inject_Z a / inject_Z b) with
       | Finite v => inr (Finite v)
       | _ => inl OverflowError
       end.

(** [x / y] on floats. *)
Definition float_truediv (x y : float) : exn + float :=
  match y with
  | NaN => inr NaN
  | Infinity _ =>
      match x with
      | Finite _ => inr (Finite 0)
      | _ => inr NaN
      end
  | Finite b =>
      if Qeq_bool b 0 then inl ZeroDivisionError
      else match x with
           | Finite a => inr (float_round (a / b))
           | Infinity s => inr (Infinity (xorb s (Qnum b <? 0)))
           | NaN => inr NaN
           end
  end.

(** [x / n] with [x] a float and [n] an int. *)
Definition float_truediv_int (x : float) (n : Z) : exn + float :=
  match float_of_int n with
  | inl e => inl e
  | inr y => float_truediv x y
  end.

(** [sum(xs)] over ints and over floats: left to right from 0 (for
    floats as CPython up to 3.11 adds them, one rounding at each step). *)
Definition sum_Z (xs : list Z) : Z := fold_left Z.add xs 0.
Definition float_sum (xs : list float) : float := fold_left float_add xs (Finite 0).

Definition len {A : Type} (xs : list A) : Z := Z.of_nat (length xs).

(** [sum(grades) / len(grades)] *)
Definition average_of (gs : list Z) : exn + float :=
  int_truediv (sum_Z gs) (len gs).

(** [min] and [max] of a non-empty list given as head and tail. *)
Definition min_from (x : Z) (xs : list Z) : Z := fold_left Z.min xs x.
Definition max_from (x : Z) (xs : list Z) : Z := fold_left Z.max xs x.

(** ** show_report *)

Record report_state : Type := ReportState {
  all_grades : list Z;
  all_average_grades : list float;
  report_out : list printed
}.

(** One iteration of [for student in students] in [show_report]: only
    [ZeroDivisionError] is caught. *)
Definition report_student (st : report_state) (s : student)
  : report_state * completion :=
  match average_of (grades s) with
  | inr average =>
      ({| all_grades := all_grades st ++ grades s;
          all_average_grades := all_average_grades st ++ [average];
          report_out := report_out st ++ [AverageGrade (name s) average] |},
       Returned)
  | inl ZeroDivisionError =>
      ({| all_grades := all_grades st ++ grades s;
          all_average_grades := all_average_grades st;
          report_out := report_out st ++ [AverageNA (name s)] |},
       Returned)
  | inl e => (st, Raised e)
  end.

Fixpoint report_students (students : roster) (st : report_state)
  : report_state * completion :=
  match students with
  | [] => (st, Returned)
  | s :: rest =>
      match report_student st s with
      | (st', Returned) => report_students rest st'
      | (st', Raised e) => (st', Raised e)
      end
  end.

(** The two lines under [if all_grades:]; each [:.1f] converts its int
    to a float. *)
Definition report_min_max (gs : list Z) : list printed * completion :=
  match gs with
  | [] => ([], Returned)
  | g :: rest =>
      let min_grade := min_from g rest in
      let max_grade := max_from g rest in
      match float_of_int max_grade with
      | inl e => ([], Raised e)
      | inr _ =>
          match float_of_int min_grade with
          | inl e => ([MaxAverage max_grade], Raised e)
          | inr _ => ([MaxAverage max_grade; MinAverage min_grade], Returned)
          end
      end
  end.

(** The lines under [if all_average_grades:]. *)
Definition report_overall (avgs : list float) : list printed * completion :=
  match avgs with
  | [] => ([], Returned)
  | _ :: _ =>
      match float_truediv_int (float_sum avgs) (len avgs) with
      | inl e => ([], Raised e)
      | inr average => ([OverallAverage average], Returned)
      end
  end.

Definition show_report (students : roster) : list printed * completion :=
  match report_students students (ReportState [] [] []) with
  | (st, Raised e) => (report_out st, Raised e)
  | (st, Returned) =>
      match report_min_max (all_grades st) with
      | (out, Raised e) => (report_out st ++ out, Raised e)
      | (out, Returned) =>
          let '(out', c) := report_overall (all_average_grades st) in
          (report_out st ++ out ++ out', c)
      end
  end.

(** ** find_top_performer *)

(** One iteration of the loop that collects [valid_students]:
    [ZeroDivisionError] is caught, other exceptions are not. *)
Definition collect_valid (valid : list (string * float)) (s : student)
  : list (string * float) * completion :=
  match grades s with
  | [] => (valid, Returned)
  | _ :: _ =>
      match average_of (grades s) with
      | inr average => (valid ++ [(name s, average)], Returned)
      | inl ZeroDivisionError => (valid, Returned)
      | inl e => (valid, Raised e)
      end
  end.

Fixpoint collect_all (students : roster) (valid : list (string * float))
  : list (string * float) * completion :=
  match students with
  | [] => (valid, Returned)
  | s :: rest =>
      match collect_valid valid s with
      | (valid', Returned) => collect_all rest valid'
      | (valid', Raised e) => (valid', Raised e)
      end
  end.

Definition valid_students (students : roster)
  : list (string * float) * completion :=
  collect_all students [].

(** [max(items, key=lambda x: x[1])] on a non-empty list: the scan keeps
    the current maximum and replaces it only by an item whose key is
    strictly greater. *)
Fixpoint max_by_average (best : string * float) (items : list (string * float))
  : string * float :=
  match items with
  | [] => best
  | x :: rest =>
      max_by_average (if float_gt (snd x) (snd best) then x else best) rest
  end.

Definition no_top_student : printed :=
  Text "No top student found. Either no students added or no grades available.".

Definition find_top_performer (students : roster) : list printed * completion :=
  match valid_students students with
  | (_, Raised e) => ([], Raised e)
  | ([], Returned) => ([no_top_student], Returned)
  | (x :: rest, Returned) =>
      let top_student := max_by_average x rest in
      ([TopPerformer (fst top_student) (snd top_student)], Returned)
  end.

(** ** The console *)

(** What [input] does on one call: a line is typed, the user presses
    Ctrl-C ([KeyboardInterrupt]) or the call fails with [ValueError].
    An exhausted console is end of input: [input] raises [EOFError],
    which nothing in the program catches. *)
Inductive console_event : Type :=
| Typed (line : string)
| Interrupt
| InputFailure.

Abbreviation console := (list console_event).

(** A computation that reads the console and prints. *)
Definition io (A : Type) : Type := console -> list printed * (exn + A * console).

Definition ret {A : Type} (a : A) : io A := fun c => ([], inr (a, c)).

Definition bind {A B : Type} (m : io A) (k : A -> io B) : io B :=
  fun c =>
    match m c with
    | (out, inl e) => (out, inl e)
    | (out, inr (a, c')) => let '(out', r) := k a c' in (out ++ out', r)
    end.

Definition print (p : printed) : io unit := fun c => ([p], inr (tt, c)).

Notation "x <- m ;; k" := (bind m (fun x => k))
  (at level 62, m at next level, right associativity).
Notation "m ;;; k" := (bind m (fun _ => k))
  (at level 62, right associativity).

(** [user_input(msg)]: the prompt itself is not recorded.  A read that
    gives no line is answered by a message and a nested call of
    [user_input]; [retries] is the number of nested calls that the
    interpreter's recursion limit still allows, and the call after the
    last of them raises [RecursionError], which nothing catches. *)
Fixpoint user_input (retries : nat) (c : console) {struct c}
  : list printed * (exn + string * console) :=
  match c with
  | [] => ([], inl EOFError)
  | Typed text :: rest => ([], inr (capitalize text, rest))
  | InputFailure :: rest =>
      match retries with
      | O => ([Text "Invalid input"], inl RecursionError)
      | S retries' =>
          let '(out, r) := user_input retries' rest in
          (Text "Invalid input" :: out, r)
      end
  | Interrupt :: rest =>
      match retries with
      | O => ([Text "Use menu for exit"], inl RecursionError)
      | S retries' =>
          let '(out, r) := user_input retries' rest in
          (Text "Use menu for exit" :: out, r)
      end
  end.

Definition grade_out_of_range : printed :=
  Text "Grade must be between 0 and 100. Please try again.".
Definition invalid_grade : printed :=
  Text "Invalid grade. Please enter a number 0-100 or 'done'".

Section WithInt.

(** Python's built-in [int] on a string; [None] is [ValueError]. *)
Variable int : string -> option Z.

(** The nested calls of [user_input] that the recursion limit allows at
    a prompt of [input_grades]; a prompt of [main] is one call less deep
    and allows one more.  (With the default limit of 1000 it is about
    995.) *)
Variable headroom : nat.

(** The [while True] loop of [input_grades].  Every iteration reads at
    least one console event, so [fuel] never runs out when it starts at
    the length of the console (see [input_grades_loop_fuel]). *)
Fixpoint input_grades_loop (fuel : nat) (gs : list Z) : io (list Z) :=
  match fuel with
  | O => fun _ => ([], inl EOFError)
  | S fuel' =>
      grade_input <- user_input headroom ;;
      if String.eqb (lower grade_input) "done" then ret gs
      else match int grade_input with
           | Some grade =>
               if (0 <=? grade) && (grade <=? 100)
               then input_grades_loop fuel' (gs ++ [grade])
               else print grade_out_of_range ;;; input_grades_loop fuel' gs
           | None => print invalid_grade ;;; input_grades_loop fuel' gs
           end
  end.

Definition input_grades : io (list Z) :=
  fun c => input_grades_loop (length c) [] c.

(** ** main *)

Definition menu : printed :=
  Text "
--- Student Grade Analyzer ---
        1. Add a new student
        2. Add grades for a student
        3. Generate a full report
        4. Find the top student
        5. Exit program".

(** What a run leaves behind: the lines printed, the roster, and whether
    the loop was left by [break] or by an exception. *)
Definition outcome : Type := list printed * roster * completion.

Definition after (out : list printed) (o : outcome) : outcome :=
  let '(out', students, c) := o in (out ++ out', students, c).

(** The [while True] loop of [main].  Every iteration reads the menu
    choice, so [fuel] above the length of the console never runs out
    (see [main_loop_fuel]). *)
Fixpoint main_loop (fuel : nat) (students : roster) (c : console) : outcome :=
  match fuel with
  | O => ([], students, Raised EOFError)
  | S fuel' =>
      match (print menu ;;; user_input (S headroom)) c with
      | (out, inl e) => (out, students, Raised e)
      | (out, inr (choice, c)) =>
          after out
            (if String.eqb choice "1" then
               match user_input (S headroom) c with
               | (out, inl e) => (out, students, Raised e)
               | (out, inr (student_name, c)) =>
                   let '(students', out') := add_new_student student_name students in
                   after (out ++ out') (main_loop fuel' students' c)
               end
             else if String.eqb choice "2" then
               match user_input (S headroom) c with
               | (out, inl e) => (out, students, Raised e)
               | (out, inr (student_name, c)) =>
                   if negb (is_student_exists student_name students)
                   then after (out ++ [Text "Student does not exist"])
                              (main_loop fuel' students c)
                   else
                     match input_grades c with
                     | (out', inl e) => (out ++ out', students, Raised e)
                     | (out', inr (gs, c)) =>
                         match add_grades student_name gs students with
                         | (students', Returned) =>
                             after (out ++ out') (main_loop fuel' students' c)
                         | (students', Raised e) =>
                             (out ++ out', students', Raised e)
                         end
                     end
               end
             else if String.eqb choice "3" then
               match show_report students with
               | (out, Returned) => after out (main_loop fuel' students c)
               | (out, Raised e) => (out, students, Raised e)
               end
             else if String.eqb choice "4" then
               match find_top_performer students with
               | (out, Returned) => after out (main_loop fuel' students c)
               | (out, Raised e) => (out, students, Raised e)
               end
             else if String.eqb choice "5" then
               ([], students, Returned)
             else
               after [Text "Invalid input. Please enter a number 1-5."]
                     (main_loop fuel' students c))
      end
  end.

(** [main()] on a fresh process: the roster starts empty. *)
Definition main (c : console) : outcome := main_loop (S (length c)) [] c.

End WithInt.

(** A decimal reading of [int]: an optional sign followed by one or more
    ASCII digits.  (The built-in also accepts surrounding blanks and
    underscores between digits; the results below that mention [int]
    hold for every function of this type.) *)
Definition digit_of (c : ascii) : option Z :=
  let n := N_of_ascii c in
  if ((48 <=? n) && (n <=? 57))%N then Some (Z.of_N (n - 48)) else None.

Fixpoint digits_value (acc : Z) (s : string) : option Z :=
  match s with
  | EmptyString => Some acc
  | String c r =>
      match digit_of c with
      | Some d => digits_value (10 * acc + d) r
      | None => None
      end
  end.

Definition unsigned_decimal (s : string) : option Z :=
  match s with
  | EmptyString => None
  | _ => digits_value 0 s
  end.

Definition int_decimal (s : string) : option Z :=
  match s with
  | String "-" r => option_map Z.opp (unsigned_decimal r)
  | String "+" r => unsigned_decimal r
  | _ => unsigned_decimal s
  end.

(** ** The report in the words of the specification *)

(** The arithmetic mean of a list of grades: their sum over their number. *)
Definition arithmetic_mean (gs : list Z) : Q :=
  (inject_Z (foldr Z.add 0%Z gs) / inject_Z (Z.of_nat (length gs)))%Q.

(** The arithmetic mean as a float: the double nearest to it. *)
Definition rounded_mean (gs : list Z) : float :=
  float_round (arithmetic_mean gs).

(** The students with at least one grade, in roster order. *)
Definition graded (students : roster) : list student :=
  filter (fun s => grades s <> []) students.

(** The line of one student in the per-student listing. *)
Definition student_line (s : student) : printed :=
  match grades s with
  | [] => AverageNA (name s)
  | _ :: _ => AverageGrade (name s) (rounded_mean (grades s))
  end.

(** The mean of the per-student means of the students with grades, in
    float arithmetic. *)
Definition average_of_averages (students : roster) : exn + float :=
  float_truediv_int
    (float_sum (map (fun s => rounded_mean (grades s)) (graded students)))
    (len (graded students)).

(** The two lines of the maximum and the minimum, as the report prints
    them when nothing is raised. *)
Definition min_max_lines (gs : list Z) : list printed :=
  match gs with
  | [] => []
  | g :: rest => [MaxAverage (max_from g rest); MinAverage (min_from g rest)]
  end.

(** The summary line of the overall average, when nothing is raised. *)
Definition overall_lines (students : roster) : list printed :=
  match graded students, average_of_averages students with
  | _ :: _, inr q => [OverallAverage q]
  | _, _ => []
  end.


(** An int that converts to a float. *)
Definition float_range (n : Z) : Prop := Z.abs n <= float_max.

(** Every stored grade converts to a float. *)
Definition grades_in_float_range (students : roster) : Prop :=
  Forall (fun s => Forall float_range (grades s)) students.

(** A float that is a number of finite size. *)
Definition is_finite (x : float) : Prop := exists v, x = Finite v.

(** ** Invariants of the roster *)

Definition valid_grade (g : Z) : Prop := 0 <= g <= 100.

(** Every stored grade is in the range 0..100. *)
Definition grades_valid (students : roster) : Prop :=
  Forall (fun s => Forall valid_grade (grades s)) students.

(** Every stored name is in capitalized form and no name is stored twice. *)
Definition names_valid (students : roster) : Prop :=
  Forall (fun s => capitalize (name s) = name s) students
  /\ NoDup (names students).

Definition final_roster (o : outcome) : roster := snd (fst o).
Definition final_completion (o : outcome) : completion := snd o.

(** ** Reading the console, line by line *)

Definition is_typed (e : console_event) : bool :=
  match e with
  | Typed _ => true
  | _ => false
  end.

(** What [user_input] prints on an attempt that does not give a line. *)
Definition retry_message (e : console_event) : list printed :=
  match e with
  | Typed _ => []
  | Interrupt => [Text "Use menu for exit"]
  | InputFailure => [Text "Invalid input"]
  end.

(** The console without the attempts that give no line. *)
Definition typed_only (c : console) : console := List.filter is_typed c.

(** A typed line read as a grade: the integer it stands for, when there is
    one and it is between 0 and 100. *)
Definition grade_of_line (int : string -> option Z) (line : string) : option Z :=
  match int (capitalize line) with
  | Some grade => if (0 <=? grade) && (grade <=? 100) then Some grade else None
  | None => None
  end.

(** The complaint about a typed line that is not taken as a grade. *)
Definition complaint_of_line (int : string -> option Z) (line : string)
  : list printed :=
  match int (capitalize line) with
  | Some grade =>
      if (0 <=? grade) && (grade <=? 100) then [] else [grade_out_of_range]
  | None => [invalid_grade]
  end.

(** A console on which nobody ever types "done", in any case. *)
Definition never_done (c : console) : Prop :=
  Forall (fun e => match e with
                   | Typed line => ~ case_variant line "done"
                   | _ => True
                   end) c.

(** A console on which nobody ever types the menu choice "5". *)
Definition never_exits (c : console) : Prop :=
  Forall (fun e => match e with
                   | Typed line => capitalize line <> "5"
                   | _ => True
                   end) c.

(** What a run leaves behind, without what it printed. *)
Definition effect (o : outcome) : roster * completion :=
  (final_roster o, final_completion o).

(** No more than [limit] reads in a row give no line; [run] is the number
    of such reads just before [c]. *)
Fixpoint runs_within (limit run : nat) (c : console) : bool :=
  match c with
  | [] => true
  | Typed _ :: rest => runs_within limit 0 rest
  | _ :: rest => (S run <=? limit)%nat && runs_within limit (S run) rest
  end.

(** ** The profile script (lecture_2/main.py) *)

Module Profile.

(** [generate_profile(age)]: [None] is the value of a call that falls
    through every [case]. *)
Definition generate_profile (age : Z) : option string :=
  if (0 <? age) && (age <=? 12) then Some "Child"
  else if (13 <? age) && (age <=? 19) then Some "Teenager"
  else if 20 >=? age then Some "Adult"
  else None.

(** What a bare [input] call can raise. *)
Inductive raised : Type :=
| RaisedEOFError
| RaisedKeyboardInterrupt
| RaisedValueError.

(** The [while True] loop of [get_hobbies]; [input] is called with no
    handler, so an event that gives no line ends the function. *)
Fixpoint get_hobbies_loop (hobbies : list string) (c : console)
  : raised + list string * console :=
  match c with
  | [] => inl RaisedEOFError
  | Interrupt :: _ => inl RaisedKeyboardInterrupt
  | InputFailure :: _ => inl RaisedValueError
  | Typed hobby :: rest =>
      let refactor_hobby := lower hobby in
      if String.eqb refactor_hobby "stop" then inr (hobbies, rest)
      else get_hobbies_loop (hobbies ++ [refactor_hobby]) rest
  end.

Definition get_hobbies (c : console) : raised + list string * console :=
  get_hobbies_loop [] c.

End Profile.

(** * Properties *)

(** ** Case mapping *)

Lemma upper_lower_char c : upper_char (lower_char c) = upper_char c.
Proof. destruct c as [[] [] [] [] [] [] [] []]; reflexivity. Qed.

Lemma lower_char_idem c : lower_char (lower_char c) = lower_char c.
Proof. destruct c as [[] [] [] [] [] [] [] []]; reflexivity. Qed.

Lemma lower_idem s : lower (lower s) = lower s.
Proof. induction s as [|c r IH]; simpl; [done|]. by rewrite lower_char_idem, IH. Qed.

Lemma capitalize_lower s : capitalize (lower s) = capitalize s.
Proof. destruct s as [|c r]; simpl; [done|]. by rewrite upper_lower_char, lower_idem. Qed.

Lemma capitalize_case_variant a b : case_variant a b -> capitalize a = capitalize b.
Proof. unfold case_variant. intros H. by rewrite <- (capitalize_lower a), H, capitalize_lower. Qed.

Lemma lower_upper_char c : lower_char (upper_char c) = lower_char c.
Proof. destruct c as [[] [] [] [] [] [] [] []]; reflexivity. Qed.

Lemma upper_char_idem c : upper_char (upper_char c) = upper_char c.
Proof. destruct c as [[] [] [] [] [] [] [] []]; reflexivity. Qed.

Lemma capitalize_idem s : capitalize (capitalize s) = capitalize s.
Proof. destruct s as [|c r]; simpl; [done|]. by rewrite upper_char_idem, lower_idem. Qed.

Lemma case_variant_capitalize s : case_variant (capitalize s) s.
Proof. unfold case_variant. destruct s as [|c r]; simpl; [done|]. by rewrite lower_upper_char, lower_idem. Qed.

(** ** Looking a name up *)

Lemma is_student_exists_In n students :
  is_student_exists n students = true <-> In (capitalize n) (names students).
Proof.
  unfold is_student_exists. rewrite existsb_exists. split.
  - intros (x & Hx & Heq). apply String.eqb_eq in Heq. by subst.
  - intros H. exists (capitalize n). split; [done|]. apply String.eqb_refl.
Qed.

Lemma add_grades_loop_absent n gs i todo students :
  ~ In n (names todo) ->
  add_grades_loop n gs i todo students
  = (students, Raised (ValueError "Student does not exist")).
Proof.
  revert i. induction todo as [|s rest IH]; intros i Hn; simpl; [done|].
  destruct (String.eqb_spec n (name s)) as [->|Hne].
  - exfalso. apply Hn. by left.
  - apply IH. intros Hin. apply Hn. by right.
Qed.

Lemma add_grades_loop_found n gs pre mid g0 post :
  ~ In n (names mid) ->
  add_grades_loop n gs (length pre) (mid ++ Student n g0 :: post)
                  (pre ++ mid ++ Student n g0 :: post)
  = (pre ++ mid ++ Student n gs :: post, Returned).
Proof.
  revert pre. induction mid as [|s rest IH]; intros pre Hn; simpl.
  - rewrite String.eqb_refl. f_equal.
    replace (length pre) with (length pre + 0)%nat by lia.
    by rewrite insert_app_r.
  - destruct (String.eqb_spec n (name s)) as [->|Hne].
    + exfalso. apply Hn. by left.
    + specialize (IH (pre ++ [s])). rewrite length_app in IH. simpl in IH.
      replace (length pre + 1)%nat with (S (length pre)) in IH by lia.
      rewrite <- !app_assoc in IH. simpl in IH. apply IH.
      intros Hin. apply Hn. by right.
Qed.

Lemma In_names_split n students :
  In n (names students) ->
  exists pre g0 post, students = pre ++ Student n g0 :: post /\ ~ In n (names pre).
Proof.
  induction students as [|s rest IH]; simpl; [done|].
  destruct (String.eqb_spec n (name s)) as [Heq|Hne].
  - intros _. exists [], (grades s), rest. split; [|by intros []].
    subst n. by destruct s.
  - intros [Heq|Hin]; [congruence|].
    destruct (IH Hin) as (pre & g0 & post & -> & Hpre).
    exists (s :: pre), g0, post. split; [done|].
    simpl. intros [Heq|Hin']; [congruence|done].
Qed.

(** ** add_grades *)

(** C4: for every name [n] that no record of the roster carries,
    [add_grades n gs] raises [ValueError "Student does not exist"] and
    leaves the roster, every record and every grade list, as it was. *)
Theorem add_grades_absent_raises n gs students :
  ~ In n (names students) ->
  add_grades n gs students
  = (students, Raised (ValueError "Student does not exist")).
Proof. intros Hn. unfold add_grades. by apply add_grades_loop_absent. Qed.

Lemma add_grades_absent_raises_witness :
  ~ In "Bob" (names [Student "Alice" [70; 80]])
  /\ add_grades "Bob" [55] [Student "Alice" [70; 80]]
     = ([Student "Alice" [70; 80]], Raised (ValueError "Student does not exist")).
Proof.
  assert (H : ~ In "Bob" (names [Student "Alice" [70; 80]])).
  { simpl. intros [H | []]. discriminate H. }
  split; [exact H | exact (add_grades_absent_raises "Bob" [55] _ H)].
Defined.

(** For a name in capitalized form, absence as [is_student_exists] sees it
    is absence from the roster. *)
Lemma add_grades_not_exists_raises n gs students :
  capitalize n = n ->
  is_student_exists n students = false ->
  add_grades n gs students
  = (students, Raised (ValueError "Student does not exist")).
Proof.
  intros Hcap Hex. unfold add_grades. apply add_grades_loop_absent.
  intros Hin. rewrite <- Hcap in Hin. apply is_student_exists_In in Hin. congruence.
Qed.

(** A name of which no case variant is stored is not found either. *)
Lemma add_grades_no_variant_raises n gs students :
  (forall m, In m (names students) -> ~ case_variant m n) ->
  add_grades n gs students
  = (students, Raised (ValueError "Student does not exist")).
Proof.
  intros Hno. unfold add_grades. apply add_grades_loop_absent.
  intros Hin. by apply (Hno n Hin).
Qed.

Lemma add_grades_first_match n gs pre g0 post :
  ~ In n (names pre) ->
  add_grades n gs (pre ++ Student n g0 :: post)
  = (pre ++ Student n gs :: post, Returned).
Proof.
  intros Hn. unfold add_grades.
  exact (add_grades_loop_found n gs [] pre g0 post Hn).
Qed.

(** C5: [add_grades] overwrites.  Whatever grade list [g0] the first
    record named [n] holds, after [add_grades n g] that record holds
    exactly [g]; nothing of [g0] is kept and no other record changes. *)
Theorem add_grades_overwrites n g0 g pre post :
  ~ In n (names pre) ->
  add_grades n g (pre ++ Student n g0 :: post)
  = (pre ++ Student n g :: post, Returned).
Proof. apply add_grades_first_match. Qed.

Lemma add_grades_overwrites_witness :
  ~ In "Bob" (names [Student "Alice" [70]])
  /\ add_grades "Bob" [100; 0] ([Student "Alice" [70]] ++ Student "Bob" [10; 20; 30] :: [])
     = ([Student "Alice" [70]] ++ Student "Bob" [100; 0] :: [], Returned).
Proof.
  assert (H : ~ In "Bob" (names [Student "Alice" [70]])).
  { simpl. intros [H | []]. discriminate H. }
  split; [exact H | exact (add_grades_overwrites "Bob" [10; 20; 30] [100; 0] _ [] H)].
Defined.

Lemma add_grades_of_exists n gs students :
  capitalize n = n ->
  is_student_exists n students = true ->
  exists pre g0 post,
    students = pre ++ Student n g0 :: post
    /\ ~ In n (names pre)
    /\ add_grades n gs students = (pre ++ Student n gs :: post, Returned).
Proof.
  intros Hcap Hex. apply is_student_exists_In in Hex. rewrite Hcap in Hex.
  destruct (In_names_split _ _ Hex) as (pre & g0 & post & -> & Hpre).
  exists pre, g0, post. split; [done|]. split; [done|].
  by apply add_grades_first_match.
Qed.

(** C1 (every name that [is_student_exists] finds is accepted by
    [add_grades], which then replaces the grades) does not hold of the
    code: [is_student_exists] capitalizes the name it looks for,
    [add_grades] compares it as it is.  With "Alice" stored,
    [is_student_exists "alice"] is true and [add_grades "alice"] raises
    [ValueError "Student does not exist"], storing nothing. *)
Lemma exists_but_add_grades_raises :
  is_student_exists "alice" [Student "Alice" []] = true
  /\ add_grades "alice" [90] [Student "Alice" []]
     = ([Student "Alice" []], Raised (ValueError "Student does not exist")).
Proof. split; reflexivity. Qed.

(** What holds: for a name [n] in capitalized form (as [user_input]
    returns it on ASCII text) that [is_student_exists] finds, [add_grades
    n gs] returns normally and the first record named [n] gets exactly
    [gs], every other record staying as it was. *)
Theorem add_grades_exists_succeeds n gs students :
  capitalize n = n ->
  is_student_exists n students = true ->
  exists pre g0 post,
    students = pre ++ Student n g0 :: post
    /\ ~ In n (names pre)
    /\ add_grades n gs students = (pre ++ Student n gs :: post, Returned).
Proof. apply add_grades_of_exists. Qed.

Lemma add_grades_exists_succeeds_witness :
  capitalize "Alice" = "Alice"
  /\ is_student_exists "Alice" [Student "Bob" [1]; Student "Alice" [2; 3]] = true
  /\ exists pre g0 post,
       [Student "Bob" [1]; Student "Alice" [2; 3]] = pre ++ Student "Alice" g0 :: post
       /\ ~ In "Alice" (names pre)
       /\ add_grades "Alice" [90] [Student "Bob" [1]; Student "Alice" [2; 3]]
          = (pre ++ Student "Alice" [90] :: post, Returned).
Proof.
  split; [reflexivity|]. split; [reflexivity|].
  apply (add_grades_exists_succeeds "Alice" [90]); reflexivity.
Defined.

(** ** add_new_student *)

(** C2 (adding a name that is already in the roster, under any case
    variant, changes nothing and reports the duplicate) does not hold of
    the code: [add_new_student] stores the name as given and
    [is_student_exists] looks for its capitalized form.  After
    [add_new_student "alice"] the same call again is not recognised: it
    prints nothing and appends a second record. *)
Lemma readd_uncapitalized_duplicates :
  let r := fst (add_new_student "alice" []) in
  r = [Student "alice" []]
  /\ case_variant "alice" "alice"
  /\ is_student_exists "alice" r = false
  /\ add_new_student "alice" r = ([Student "alice" []; Student "alice" []], []).
Proof. repeat split. Qed.

(** What holds: when a name [n1] is stored in capitalized form (as
    [user_input] returns it on ASCII text), adding any case variant [v]
    of [n1] leaves the roster as it was and prints "Student already
    exists". *)
Theorem add_new_student_duplicate n1 v students :
  In n1 (names students) ->
  capitalize n1 = n1 ->
  case_variant v n1 ->
  add_new_student v students = (students, [Text "Student already exists"]).
Proof.
  intros Hin Hcap Hv. unfold add_new_student.
  replace (is_student_exists v students) with true; [done|].
  symmetry. apply is_student_exists_In.
  by rewrite (capitalize_case_variant _ _ Hv), Hcap.
Qed.

Lemma add_new_student_duplicate_witness :
  In "Alice" (names [Student "Alice" [70]])
  /\ capitalize "Alice" = "Alice"
  /\ case_variant "aLICE" "Alice"
  /\ add_new_student "aLICE" [Student "Alice" [70]]
     = ([Student "Alice" [70]], [Text "Student already exists"]).
Proof.
  assert (H : In "Alice" (names [Student "Alice" [70]])) by (simpl; by left).
  split; [exact H|]. split; [reflexivity|]. split; [reflexivity|].
  exact (add_new_student_duplicate "Alice" "aLICE" _ H eq_refl eq_refl).
Defined.

(** C10: adding a name that [is_student_exists] does not find appends
    exactly one record, with that name and no grades, at the end of the
    roster; every earlier record keeps its position, name and grades. *)
Theorem add_new_student_appends n students :
  is_student_exists n students = false ->
  add_new_student n students = (students ++ [Student n []], [])
  /\ (forall i s, students !! i = Some s ->
               fst (add_new_student n students) !! i = Some s)
  /\ fst (add_new_student n students) !! length students = Some (Student n [])
  /\ length (fst (add_new_student n students)) = S (length students).
Proof.
  intros Hex. unfold add_new_student. rewrite Hex. simpl.
  split; [done|]. split; [|split].
  - intros i s Hi. by apply lookup_app_l_Some.
  - by rewrite list_lookup_middle.
  - rewrite length_app. simpl. lia.
Qed.

(** In particular a name of which no case variant is stored is appended. *)
Lemma add_new_student_no_variant n students :
  (forall m, In m (names students) -> ~ case_variant m n) ->
  add_new_student n students = (students ++ [Student n []], []).
Proof.
  intros Hno. unfold add_new_student.
  destruct (is_student_exists n students) eqn:Hex; [|done].
  apply is_student_exists_In in Hex.
  destruct (Hno _ Hex). apply case_variant_capitalize.
Qed.

Lemma add_new_student_appends_witness :
  is_student_exists "Bob" [Student "Alice" [70]] = false
  /\ add_new_student "Bob" [Student "Alice" [70]]
     = ([Student "Alice" [70]] ++ [Student "Bob" []], []).
Proof.
  split; [reflexivity|].
  exact (proj1 (add_new_student_appends "Bob" [Student "Alice" [70]] eq_refl)).
Defined.

(** ** Floats *)

Lemma float_max_below_threshold : float_max < overflow_threshold.
Proof. reflexivity. Qed.

Lemma float_max_pos : 0 < float_max.
Proof. reflexivity. Qed.

Lemma valid_grade_float_range g : valid_grade g -> float_range g.
Proof.
  unfold valid_grade, float_range. intros H.
  assert (100 <= float_max) by (intros E; discriminate E). lia.
Qed.

Lemma grades_valid_float_range students :
  grades_valid students -> grades_in_float_range students.
Proof.
  unfold grades_valid, grades_in_float_range. intros H.
  eapply Forall_impl; [exact H|]. intros s Hs.
  eapply Forall_impl; [exact Hs|]. apply valid_grade_float_range.
Qed.

(** Below the threshold rounding stays among the finite doubles. *)
Lemma float_round_finite q :
  (Qabs q <= inject_Z float_max)%Q -> float_round q = Finite (round_finite q).
Proof.
  intros H. unfold float_round.
  destruct (Qle_bool (inject_Z overflow_threshold) (Qabs q)) eqn:E; [|done].
  apply Qle_bool_iff in E. exfalso.
  assert (inject_Z float_max < inject_Z overflow_threshold)%Q as Hlt
    by (rewrite <- Zlt_Qlt; apply float_max_below_threshold).
  apply (Qlt_irrefl (inject_Z float_max)).
  eapply Qlt_le_trans; [exact Hlt|]. by eapply Qle_trans.
Qed.

Lemma Qabs_inject_Z n : (Qabs (inject_Z n) == inject_Z (Z.abs n))%Q.
Proof. reflexivity. Qed.

Lemma float_of_int_in_range n :
  float_range n -> float_of_int n = inr (Finite (round_finite (inject_Z n))).
Proof.
  intros H. unfold float_of_int. rewrite float_round_finite; [done|].
  rewrite Qabs_inject_Z, <- Zle_Qle. exact H.
Qed.

(** The float of a positive int is positive. *)
Lemma round_finite_pos_int n :
  1 <= n -> (0 < round_finite (inject_Z n))%Q.
Proof.
  intros Hn. unfold round_finite. cbn [Qnum Qden inject_Z].
  rewrite Z.abs_eq by lia.
  destruct (Z.eqb_spec n 0) as [|_]; [lia|].
  destruct (Z.ltb_spec n 0) as [|_]; [lia|].
  set (u := Z.max (binade n 1 - 52) (-1074)).
  set (N := n * 2 ^ Z.max 0 (- u)). set (D := 1 * 2 ^ Z.max 0 u).
  assert (0 < D) as HD by (unfold D; pose proof (Z.pow_pos_nonneg 2 (Z.max 0 u)); lia).
  assert (binade n 1 = Z.log2 n) as Hb.
  { unfold binade. change (Z.log2 1) with 0. rewrite Z.sub_0_r.
    pose proof (Z.log2_nonneg n) as Hk.
    rewrite (Z.max_l 0 (- Z.log2 n)) by lia. rewrite (Z.max_r 0 (Z.log2 n)) by lia.
    destruct (Z.ltb_spec (n * 2 ^ 0) (1 * 2 ^ Z.log2 n)) as [Hlt|]; [|done].
    pose proof (Z.log2_spec n ltac:(lia)) as [Hlo _].
    change (2 ^ 0) with 1 in Hlt. lia. }
  assert (D <= N) as HDN.
  { unfold N, D, u. rewrite Hb. pose proof (Z.log2_nonneg n) as Hk.
    destruct (Z.le_gt_cases (Z.log2 n) 52) as [Hle|Hgt].
    - rewrite (Z.max_l (Z.log2 n - 52)) by lia.
      rewrite (Z.max_l 0 (Z.log2 n - 52)) by lia.
      change (2 ^ 0) with 1.
      pose proof (Z.pow_pos_nonneg 2 (Z.max 0 (- (Z.log2 n - 52)))). nia.
    - rewrite (Z.max_l (Z.log2 n - 52)) by lia.
      rewrite (Z.max_r 0 (Z.log2 n - 52)) by lia.
      rewrite (Z.max_l 0 (- (Z.log2 n - 52))) by lia.
      change (2 ^ 0) with 1.
      pose proof (Z.log2_spec n ltac:(lia)) as [Hlo _].
      assert (2 ^ (Z.log2 n - 52) <= 2 ^ Z.log2 n)
        by (apply Z.pow_le_mono_r; lia).
      lia. }
  assert (1 <= nearest_even N D) as Hm.
  { unfold nearest_even.
    assert (1 <= N / D) by (apply Z.div_le_lower_bound; lia).
    destruct (2 * (N mod D) ?= D); [destruct (Z.even (N / D))|..]; lia. }
  rewrite Qred_correct.
  assert (0 < 2 ^ Z.max 0 u) by (apply Z.pow_pos_nonneg; lia).
  assert (0 < 2 ^ Z.max 0 (- u)) by (apply Z.pow_pos_nonneg; lia).
  apply Qlt_shift_div_l.
  - change 0%Q with (inject_Z 0). by rewrite <- Zlt_Qlt.
  - rewrite Qmult_0_l. change 0%Q with (inject_Z 0). rewrite <- Zlt_Qlt. nia.
Qed.

(** ** Means and their bounds *)

Lemma fold_left_add_foldr xs a : fold_left Z.add xs a = a + foldr Z.add 0 xs.
Proof.
  revert a. induction xs as [|x xs IH]; intros a; simpl; [lia|].
  rewrite IH. lia.
Qed.

Lemma sum_Z_foldr xs : sum_Z xs = foldr Z.add 0 xs.
Proof. unfold sum_Z. by rewrite fold_left_add_foldr. Qed.

Lemma foldr_add_bounds lo hi gs :
  (forall g, In g gs -> lo <= g <= hi) ->
  lo * Z.of_nat (length gs) <= foldr Z.add 0 gs <= hi * Z.of_nat (length gs).
Proof.
  induction gs as [|g gs IH]; intros H; [simpl; lia|].
  assert (lo <= g <= hi) by (apply H; by left).
  assert (lo * Z.of_nat (length gs) <= foldr Z.add 0 gs <= hi * Z.of_nat (length gs))
    by (apply IH; intros; apply H; by right).
  cbn [length foldr]. rewrite Nat2Z.inj_succ. lia.
Qed.

Lemma arithmetic_mean_bounds lo hi gs :
  gs <> [] ->
  (forall g, In g gs -> lo <= g <= hi) ->
  (inject_Z lo <= arithmetic_mean gs <= inject_Z hi)%Q.
Proof.
  intros Hne H. pose proof (foldr_add_bounds lo hi gs H) as [Hlo Hhi].
  assert (0 < inject_Z (Z.of_nat (length gs)))%Q as Hpos.
  { change 0%Q with (inject_Z 0). rewrite <- Zlt_Qlt. destruct gs; [done|]. simpl. lia. }
  unfold arithmetic_mean. split.
  - apply Qle_shift_div_l; [done|]. rewrite <- inject_Z_mult. by rewrite <- Zle_Qle.
  - apply Qle_shift_div_r; [done|]. rewrite <- inject_Z_mult. by rewrite <- Zle_Qle.
Qed.

(** The mean of grades that convert to floats rounds to a finite double:
    the division does not overflow. *)
Lemma rounded_mean_finite gs :
  gs <> [] -> Forall float_range gs ->
  rounded_mean gs = Finite (round_finite (arithmetic_mean gs)).
Proof.
  intros Hne Hr. unfold rounded_mean. apply float_round_finite.
  apply Qabs_Qle_condition.
  rewrite <- inject_Z_opp.
  apply arithmetic_mean_bounds; [done|].
  intros g Hg. rewrite Forall_forall in Hr.
  specialize (Hr g (proj2 (list_elem_of_In _ _) Hg)). unfold float_range in Hr. lia.
Qed.

Lemma average_of_nil : average_of [] = inl ZeroDivisionError.
Proof. reflexivity. Qed.

Lemma average_of_cons g gs :
  Forall float_range (g :: gs) ->
  average_of (g :: gs) = inr (rounded_mean (g :: gs)).
Proof.
  intros Hr. pose proof (rounded_mean_finite (g :: gs) ltac:(done) Hr) as Hm.
  unfold average_of, int_truediv, len.
  destruct (Z.eqb_spec (Z.of_nat (length (g :: gs))) 0) as [H|_]; [simpl in H; lia|].
  rewrite sum_Z_foldr.
  change (float_round (inject_Z (foldr Z.add 0 (g :: gs))
                       / inject_Z (Z.of_nat (length (g :: gs)))))
    with (rounded_mean (g :: gs)).
  by rewrite Hm.
Qed.

(** The floats of this model at some values of CPython:
    [0.1], [0.1 + 0.2], [100 / 3], [(0.1 + 0.1 + 0.1) / 3], the tie
    [float(2**53 + 1)], the last int below the overflow threshold, the
    smallest positive double and a tie just below it. *)
Example float_examples :
  float_round (1 # 10) = Finite (3602879701896397 # 36028797018963968)
  /\ float_add (float_round (1 # 10)) (float_round (2 # 10))
     = Finite (1351079888211149 # 4503599627370496)
  /\ int_truediv 100 3 = inr (Finite (4691249611844267 # 140737488355328))
  /\ float_truediv_int
       (float_sum [float_round (1 # 10); float_round (1 # 10); float_round (1 # 10)]) 3
     = inr (Finite (7205759403792795 # 72057594037927936))
  /\ float_of_int (2 ^ 53 + 1) = inr (Finite (inject_Z (2 ^ 53)))
  /\ float_of_int (2 ^ 53 + 3) = inr (Finite (inject_Z (2 ^ 53 + 4)))
  /\ float_of_int (overflow_threshold - 1) = inr (Finite (inject_Z float_max))
  /\ float_of_int overflow_threshold = inl OverflowError
  /\ int_truediv (10 ^ 400) 1 = inl OverflowError
  /\ int_truediv 1 (2 ^ 1074) = inr (Finite (1 # Z.to_pos (2 ^ 1074)))
  /\ int_truediv 1 (2 ^ 1075) = inr (Finite 0)
  /\ int_truediv 3 (2 ^ 1075) = inr (Finite (1 # Z.to_pos (2 ^ 1073))).
Proof. repeat split; vm_compute; reflexivity. Qed.
(** ** show_report *)

Lemma graded_cons_nil s students :
  grades s = [] -> graded (s :: students) = graded students.
Proof. intros H. unfold graded. rewrite filter_cons. by case_decide. Qed.

Lemma graded_cons_some s students :
  grades s <> [] -> graded (s :: students) = s :: graded students.
Proof. intros H. unfold graded. rewrite filter_cons. by case_decide. Qed.

Lemma In_graded s students :
  In s (graded students) <-> In s students /\ grades s <> [].
Proof.
  unfold graded. rewrite <- !list_elem_of_In, list_elem_of_filter. tauto.
Qed.

Lemma graded_nil students :
  graded students = [] <-> forall s, In s students -> grades s = [].
Proof.
  split.
  - intros Hnil s Hs. destruct (decide (grades s = [])) as [|Hne]; [done|].
    assert (In s (graded students)) as Hin by (by apply In_graded).
    by rewrite Hnil in Hin.
  - intros Hall. destruct (graded students) as [|s l] eqn:Hg; [done|].
    assert (In s (graded students)) as Hin by (rewrite Hg; by left).
    apply In_graded in Hin as [Hin Hne]. by destruct (Hne (Hall s Hin)).
Qed.

Lemma length_graded students : (length (graded students) <= length students)%nat.
Proof. unfold graded. apply length_filter. Qed.

Lemma map_fmap {A B : Type} (f : A -> B) (l : list A) : map f l = f <$> l.
Proof. reflexivity. Qed.

(** The loop over the students, when every grade converts to a float: no
    division overflows, and the loop returns. *)
Lemma report_loop students st :
  grades_in_float_range students ->
  report_students students st
  = ({| all_grades := all_grades st ++ concat (map grades students);
        all_average_grades :=
          all_average_grades st
          ++ map (fun s => rounded_mean (grades s)) (graded students);
        report_out := report_out st ++ map student_line students |},
     Returned).
Proof.
  revert st. induction students as [|s students IH]; intros st Hr; simpl.
  - rewrite !app_nil_r. by destruct st.
  - apply Forall_cons in Hr as [Hs Hr]. unfold report_student, student_line.
    destruct (grades s) as [|g gs] eqn:Hg.
    + rewrite average_of_nil, IH, graded_cons_nil by done. simpl.
      by rewrite <- !app_assoc.
    + rewrite average_of_cons, IH, graded_cons_some by (done || congruence). simpl.
      rewrite Hg. by rewrite <- !app_assoc.
Qed.

Lemma max_from_spec x xs :
  In (max_from x xs) (x :: xs) /\ forall g, In g (x :: xs) -> g <= max_from x xs.
Proof.
  unfold max_from. revert x. induction xs as [|y ys IH]; intros x; simpl.
  - split; [by left|]. intros g [->|[]]. lia.
  - destruct (IH (Z.max x y)) as [Hin Hub]. split.
    + destruct Hin as [Heq|Hin]; [|by right; right].
      rewrite <- Heq. destruct (Z.max_spec x y) as [[_ ->]|[_ ->]]; simpl; auto.
    + intros g Hg. assert (g <= Z.max x y \/ In g ys) as [Hle|Hin'].
      { destruct Hg as [->|[->|Hg]]; [left; lia|left; lia|by right]. }
      * specialize (Hub (Z.max x y) (or_introl eq_refl)). lia.
      * apply Hub. by right.
Qed.

Lemma min_from_spec x xs :
  In (min_from x xs) (x :: xs) /\ forall g, In g (x :: xs) -> min_from x xs <= g.
Proof.
  unfold min_from. revert x. induction xs as [|y ys IH]; intros x; simpl.
  - split; [by left|]. intros g [->|[]]. lia.
  - destruct (IH (Z.min x y)) as [Hin Hlb]. split.
    + destruct Hin as [Heq|Hin]; [|by right; right].
      rewrite <- Heq. destruct (Z.min_spec x y) as [[_ ->]|[_ ->]]; simpl; auto.
    + intros g Hg. assert (Z.min x y <= g \/ In g ys) as [Hle|Hin'].
      { destruct Hg as [->|[->|Hg]]; [left; lia|left; lia|by right]. }
      * specialize (Hlb (Z.min x y) (or_introl eq_refl)). lia.
      * apply Hlb. by right.
Qed.

Lemma In_all_grades g students :
  In g (concat (map grades students))
  <-> exists s, In s students /\ In g (grades s).
Proof.
  rewrite in_concat. split.
  - intros (gs & Hgs & Hg). apply in_map_iff in Hgs as (s & <- & Hs). eauto.
  - intros (s & Hs & Hg). exists (grades s). split; [|done]. by apply in_map.
Qed.

Lemma all_grades_float_range students :
  grades_in_float_range students ->
  Forall float_range (concat (map grades students)).
Proof.
  intros Hr. apply Forall_forall. intros g Hg.
  apply list_elem_of_In, In_all_grades in Hg as (s & Hs & Hg).
  unfold grades_in_float_range in Hr. rewrite Forall_forall in Hr.
  specialize (Hr s (proj2 (list_elem_of_In _ _) Hs)). rewrite Forall_forall in Hr.
  apply Hr. by apply list_elem_of_In.
Qed.

Lemma report_min_max_in_range gs :
  Forall float_range gs -> report_min_max gs = (min_max_lines gs, Returned).
Proof.
  intros Hr. destruct gs as [|g rest]; [done|]. simpl.
  rewrite Forall_forall in Hr.
  rewrite !float_of_int_in_range; [done|..];
    apply Hr, list_elem_of_In; [apply min_from_spec | apply max_from_spec].
Qed.

Lemma float_of_int_positive n :
  1 <= n ->
  float_of_int n = inl OverflowError
  \/ exists v, float_of_int n = inr (Finite v) /\ Qeq_bool v 0 = false.
Proof.
  intros Hn. unfold float_of_int, float_round.
  destruct (Qle_bool _ _); [by left|]. right. eexists. split; [done|].
  pose proof (round_finite_pos_int n Hn) as Hpos.
  destruct (Qeq_bool _ 0) eqn:E; [|done].
  apply Qeq_bool_iff in E. rewrite E in Hpos. by apply Qlt_irrefl in Hpos.
Qed.

(** Dividing a float by the length of a non-empty list: the length is
    not zero, so the only exception is the [OverflowError] of a length
    that does not convert. *)
Lemma float_truediv_int_len x n :
  1 <= n ->
  float_truediv_int x n = inl OverflowError
  \/ exists q, float_truediv_int x n = inr q.
Proof.
  intros Hn. unfold float_truediv_int.
  destruct (float_of_int_positive n Hn) as [->|(v & -> & Hv)]; [by left|].
  right. unfold float_truediv. rewrite Hv. destruct x; eauto.
Qed.

Lemma float_truediv_int_in_range x n :
  1 <= n -> float_range n -> exists q, float_truediv_int x n = inr q.
Proof.
  intros Hn Hr. destruct (float_truediv_int_len x n Hn) as [H|H]; [|done].
  unfold float_truediv_int in H. rewrite float_of_int_in_range in H by done.
  unfold float_truediv in H. destruct (Qeq_bool _ _), x; discriminate H.
Qed.

Lemma report_overall_graded students :
  report_overall (map (fun s => rounded_mean (grades s)) (graded students))
  = match graded students with
    | [] => ([], Returned)
    | _ :: _ =>
        match average_of_averages students with
        | inl e => ([], Raised e)
        | inr q => ([OverallAverage q], Returned)
        end
    end.
Proof.
  unfold average_of_averages.
  destruct (graded students) as [|s l]; [done|].
  unfold report_overall, len. cbn [map]. rewrite length_cons, length_map.
  by destruct (float_truediv_int _ _).
Qed.

(** The report in full, when every grade converts to a float. *)
Lemma show_report_parts students :
  grades_in_float_range students ->
  show_report students
  = (map student_line students
       ++ min_max_lines (concat (map grades students))
       ++ overall_lines students,
     match graded students, average_of_averages students with
     | _ :: _, inl e => Raised e
     | _, _ => Returned
     end).
Proof.
  intros Hr. unfold show_report. rewrite report_loop by done. simpl.
  rewrite report_min_max_in_range by (by apply all_grades_float_range).
  rewrite report_overall_graded. unfold overall_lines.
  destruct (graded students); [done|]. by destruct (average_of_averages students).
Qed.

Lemma len_graded_range students :
  float_range (len students) -> float_range (len (graded students)).
Proof.
  unfold float_range, len. pose proof (length_graded students). lia.
Qed.

Lemma average_of_averages_defined students :
  graded students <> [] -> float_range (len students) ->
  exists q, average_of_averages students = inr q.
Proof.
  intros Hne Hr. apply float_truediv_int_in_range.
  - unfold len. destruct (graded students); [done|]. simpl. lia.
  - by apply len_graded_range.
Qed.

Lemma student_line_not_summary s :
  (forall g, student_line s <> MaxAverage g)
  /\ (forall g, student_line s <> MinAverage g)
  /\ (forall q, student_line s <> OverallAverage q).
Proof. unfold student_line. by destruct (grades s). Qed.

Lemma In_student_lines p students :
  In p (map student_line students) ->
  (forall g, p <> MaxAverage g) /\ (forall g, p <> MinAverage g)
  /\ (forall q, p <> OverallAverage q).
Proof.
  intros Hp. apply in_map_iff in Hp as (s & <- & _). apply student_line_not_summary.
Qed.

Lemma In_min_max_lines p gs :
  In p (min_max_lines gs) ->
  exists g rest, gs = g :: rest
    /\ (p = MaxAverage (max_from g rest) \/ p = MinAverage (min_from g rest)).
Proof.
  destruct gs as [|g rest]; simpl; [done|].
  intros [<-|[<-|[]]]; eauto.
Qed.

Lemma In_overall_lines p students :
  In p (overall_lines students) ->
  exists q, p = OverallAverage q /\ graded students <> []
            /\ average_of_averages students = inr q.
Proof.
  unfold overall_lines. destruct (graded students) as [|s l]; [done|].
  destruct (average_of_averages students) as [e|q]; [done|].
  intros [<-|[]]. by exists q.
Qed.

(** C6: in the report, the line of every student with at least one grade
    carries the arithmetic mean of that student's grades as a float, that
    is, rounded to the nearest double (for grades [70, 80, 90] it is 80),
    and the line of a student with no grades is "N/A": the division by
    zero is caught and the report goes on.  The grades are taken to
    convert to floats; a grade that does not makes the division raise
    [OverflowError]. *)
Theorem show_report_student_line students i s :
  grades_in_float_range students ->
  students !! i = Some s ->
  fst (show_report students) !! i = Some (student_line s).
Proof.
  intros Hr Hs. rewrite show_report_parts by done. simpl.
  apply lookup_app_l_Some. by rewrite map_fmap, list_lookup_fmap, Hs.
Qed.

Lemma show_report_student_line_witness :
  let students := [Student "A" [70; 80; 90]; Student "B" []; Student "C" [0; 0; 100]] in
  grades_in_float_range students
  /\ students !! 0%nat = Some (Student "A" [70; 80; 90])
  /\ fst (show_report students) !! 0%nat = Some (AverageGrade "A" (rounded_mean [70; 80; 90]))
  /\ rounded_mean [70; 80; 90] = Finite 80
  /\ fst (show_report students) !! 1%nat = Some (AverageNA "B")
  /\ fst (show_report students) !! 2%nat
     = Some (AverageGrade "C" (Finite (4691249611844267 # 140737488355328))).
Proof.
  intros students.
  assert (H : grades_in_float_range students).
  { repeat constructor; intros E; discriminate E. }
  split; [exact H|]. split; [reflexivity|].
  split; [|split; [reflexivity|split]].
  - exact (show_report_student_line students 0 (Student "A" [70; 80; 90]) H eq_refl).
  - exact (show_report_student_line students 1 (Student "B" []) H eq_refl).
  - exact (show_report_student_line students 2 (Student "C" [0; 0; 100]) H eq_refl).
Defined.




(** C8: the maximum and minimum of the report are taken over the single
    grades of all students, not over averages: they are grades of some
    student and bound every grade of every student.  They are printed
    only when the roster holds at least one grade.  The grades are taken
    to convert to floats. *)
Theorem show_report_min_max students :
  grades_in_float_range students ->
  ((forall s, In s students -> grades s = []) ->
   forall g, ~ In (MaxAverage g) (fst (show_report students))
             /\ ~ In (MinAverage g) (fst (show_report students)))
  /\ ((exists s, In s students /\ grades s <> []) ->
      exists mx mn,
        (forall g, In (MaxAverage g) (fst (show_report students)) <-> g = mx)
        /\ (forall g, In (MinAverage g) (fst (show_report students)) <-> g = mn)
        /\ (exists s, In s students /\ In mx (grades s))
        /\ (exists s, In s students /\ In mn (grades s))
        /\ (forall s g, In s students -> In g (grades s) -> mn <= g <= mx)).
Proof.
  intros Hr. rewrite show_report_parts by done. cbn [fst].
  destruct (concat (map grades students)) as [|g0 rest] eqn:Hall.
  - split.
    + intros _ g. rewrite !in_app_iff. simpl. split.
      * intros [H|[[]|H]].
        -- apply In_student_lines in H as (H & _ & _). by destruct (H g).
        -- by apply In_overall_lines in H as (q & Hq & _).
      * intros [H|[[]|H]].
        -- apply In_student_lines in H as (_ & H & _). by destruct (H g).
        -- by apply In_overall_lines in H as (q & Hq & _).
    + intros (s & Hs & Hne). exfalso.
      destruct (grades s) as [|g gs] eqn:Hg; [done|].
      assert (In g (concat (map grades students))) as Hin.
      { apply In_all_grades. exists s. split; [done|]. rewrite Hg. by left. }
      by rewrite Hall in Hin.
  - split.
    + intros Hnone. exfalso.
      assert (In g0 (concat (map grades students))) as Hin by (rewrite Hall; by left).
      apply In_all_grades in Hin as (s & Hs & Hg). rewrite (Hnone s Hs) in Hg. done.
    + intros _. exists (max_from g0 rest), (min_from g0 rest).
      destruct (max_from_spec g0 rest) as [Hmax_in Hmax].
      destruct (min_from_spec g0 rest) as [Hmin_in Hmin].
      rewrite <- Hall in Hmax_in, Hmax, Hmin_in, Hmin.
      split; [|split; [|split; [|split]]].
      * intros g. rewrite !in_app_iff. simpl. split.
        -- intros [H|[[H|[H|[]]]|H]].
           ++ apply In_student_lines in H as (H & _ & _). by destruct (H g).
           ++ by injection H.
           ++ discriminate H.
           ++ by apply In_overall_lines in H as (q & Hq & _).
        -- intros ->. right. left. by left.
      * intros g. rewrite !in_app_iff. simpl. split.
        -- intros [H|[[H|[H|[]]]|H]].
           ++ apply In_student_lines in H as (_ & H & _). by destruct (H g).
           ++ discriminate H.
           ++ by injection H.
           ++ by apply In_overall_lines in H as (q & Hq & _).
        -- intros ->. right. left. right. by left.
      * by apply In_all_grades.
      * by apply In_all_grades.
      * intros s g Hs Hg.
        assert (In g (concat (map grades students))) as Hin
          by (apply In_all_grades; eauto).
        split; [by apply Hmin | by apply Hmax].
Qed.

Lemma show_report_min_max_witness :
  let students := [Student "A" [70; 95]; Student "B" []; Student "C" [40; 80]] in
  grades_in_float_range students
  /\ (exists s, In s students /\ grades s <> [])
  /\ In (MaxAverage 95) (fst (show_report students))
  /\ In (MinAverage 40) (fst (show_report students))
  /\ exists mx mn,
       (forall g, In (MaxAverage g) (fst (show_report students)) <-> g = mx)
       /\ (forall g, In (MinAverage g) (fst (show_report students)) <-> g = mn)
       /\ (exists s, In s students /\ In mx (grades s))
       /\ (exists s, In s students /\ In mn (grades s))
       /\ (forall s g, In s students -> In g (grades s) -> mn <= g <= mx).
Proof.
  intros students.
  assert (Hr : grades_in_float_range students).
  { repeat constructor; intros E; discriminate E. }
  assert (H : exists s, In s students /\ grades s <> []).
  { exists (Student "A" [70; 95]). split; [by left | done]. }
  split; [exact Hr|]. split; [exact H|]. split; [|split].
  - vm_compute. tauto.
  - vm_compute. tauto.
  - exact (proj2 (show_report_min_max students Hr) H).
Defined.

(** ** find_top_performer *)

Lemma Qgt_bool_true a b : Qgt_bool a b = true <-> (b < a)%Q.
Proof.
  unfold Qgt_bool. rewrite negb_true_iff. split.
  - intros H. apply Qnot_le_lt. intros Hle. apply Qle_bool_iff in Hle. congruence.
  - intros H. destruct (Qle_bool a b) eqn:E; [|done].
    apply Qle_bool_iff in E. exfalso. by apply (Qlt_not_le _ _ H).
Qed.

Lemma Qgt_bool_false a b : Qgt_bool a b = false <-> (a <= b)%Q.
Proof.
  unfold Qgt_bool. rewrite negb_false_iff. apply Qle_bool_iff.
Qed.

(** [>] on floats of finite size is the order of their values. *)
Lemma float_gt_trans x y z :
  float_gt x y = true -> float_gt y z = true -> float_gt x z = true.
Proof.
  destruct x as [a|[]|], y as [b|[]|], z as [c|[]|]; simpl; try done.
  rewrite !Qgt_bool_true. intros H1 H2. by eapply Qlt_trans.
Qed.

Lemma float_gt_above x y z :
  is_finite z ->
  float_gt x y = true -> float_gt z y = false -> float_gt x z = true.
Proof.
  intros [c ->]. destruct x as [a|[]|], y as [b|[]|]; simpl; try done.
  rewrite Qgt_bool_true, Qgt_bool_false, Qgt_bool_true. intros H1 H2.
  by eapply Qle_lt_trans.
Qed.

Lemma float_gt_irrefl x : float_gt x x = false.
Proof.
  destruct x as [a|[]|]; simpl; try done. apply Qgt_bool_false, Qle_refl.
Qed.

Lemma collect_loop students valid :
  grades_in_float_range students ->
  collect_all students valid
  = (valid ++ map (fun s => (name s, rounded_mean (grades s))) (graded students),
     Returned).
Proof.
  revert valid. induction students as [|s students IH]; intros valid Hr; simpl.
  - by rewrite app_nil_r.
  - apply Forall_cons in Hr as [Hs Hr]. unfold collect_valid.
    destruct (grades s) as [|g gs] eqn:Hg.
    + by rewrite IH, graded_cons_nil.
    + rewrite average_of_cons, IH, graded_cons_some by (done || congruence).
      simpl. by rewrite Hg, <- app_assoc.
Qed.

Lemma valid_students_graded students :
  grades_in_float_range students ->
  valid_students students
  = (map (fun s => (name s, rounded_mean (grades s))) (graded students), Returned).
Proof. intros Hr. unfold valid_students. by rewrite collect_loop. Qed.

(** Without a grade nothing is divided, whatever the roster. *)
Lemma valid_students_no_grades students :
  (forall s, In s students -> grades s = []) ->
  forall valid, collect_all students valid = (valid, Returned).
Proof.
  induction students as [|s students IH]; intros Hall valid; simpl; [done|].
  unfold collect_valid. rewrite (Hall s) by (by left).
  apply IH. intros s' Hs'. apply Hall. by right.
Qed.

Lemma graded_means_finite students y :
  grades_in_float_range students ->
  In y (map (fun s => (name s, rounded_mean (grades s))) (graded students)) ->
  is_finite (snd y).
Proof.
  intros Hr Hy. apply in_map_iff in Hy as (s & <- & Hs).
  apply In_graded in Hs as [Hs Hne]. simpl.
  unfold grades_in_float_range in Hr. rewrite Forall_forall in Hr.
  specialize (Hr s (proj2 (list_elem_of_In _ _) Hs)).
  rewrite rounded_mean_finite by done. by eexists.
Qed.

(** The scan returns the first item of maximal average: it is greater
    than everything before it, and nothing after it is greater. *)
Lemma max_by_average_scan items : forall best a b,
  (forall y, In y items -> is_finite (snd y)) ->
  (forall y, In y a -> float_gt (snd best) (snd y) = true) ->
  (forall y, In y b -> float_gt (snd y) (snd best) = false /\ is_finite (snd y)) ->
  exists a' b',
    a ++ best :: b ++ items = a' ++ max_by_average best items :: b'
    /\ (forall y, In y a' ->
          float_gt (snd (max_by_average best items)) (snd y) = true)
    /\ (forall y, In y b' ->
          float_gt (snd y) (snd (max_by_average best items)) = false).
Proof.
  induction items as [|x rest IH]; intros best a b Hfin Ha Hb; simpl.
  - exists a, b. rewrite app_nil_r. split; [done|]. split; [done|].
    intros y Hy. by apply Hb.
  - assert (is_finite (snd x)) as Hx by (apply Hfin; by left).
    assert (forall y, In y rest -> is_finite (snd y)) as Hrest
      by (intros y Hy; apply Hfin; by right).
    destruct (float_gt (snd x) (snd best)) eqn:E.
    + destruct (IH x (a ++ best :: b) []) as (a' & b' & Heq & Ha' & Hb'); [done| |..].
      * intros y Hy. apply in_app_iff in Hy as [Hy|[<-|Hy]]; [|done|].
        -- eapply float_gt_trans; [exact E|by apply Ha].
        -- destruct (Hb y Hy) as [Hle Hfy]. by eapply float_gt_above.
      * intros y [].
      * exists a', b'. split; [|done]. rewrite <- Heq. simpl.
        by rewrite <- app_assoc.
    + destruct (IH best a (b ++ [x])) as (a' & b' & Heq & Ha' & Hb'); [done|done| |].
      * intros y Hy. apply in_app_iff in Hy as [Hy|[<-|[]]]; [by apply Hb|done].
      * exists a', b'. split; [|done]. rewrite <- Heq.
        by rewrite <- app_assoc.
Qed.

Lemma graded_split students : forall a s b,
  graded students = a ++ s :: b ->
  exists pre post, students = pre ++ s :: post /\ graded pre = a /\ graded post = b.
Proof.
  induction students as [|x l IH]; intros a s b Hg.
  - by destruct a.
  - destruct (decide (grades x = [])) as [Hx|Hx].
    + rewrite graded_cons_nil in Hg by done.
      destruct (IH _ _ _ Hg) as (pre & post & -> & Hpre & Hpost).
      exists (x :: pre), post. split; [done|]. split; [|done].
      by rewrite graded_cons_nil.
    + rewrite graded_cons_some in Hg by done.
      destruct a as [|y a]; simpl in Hg.
      * injection Hg as -> Hl. by exists [], l.
      * injection Hg as -> Hl.
        destruct (IH _ _ _ Hl) as (pre & post & -> & Hpre & Hpost).
        exists (y :: pre), post. split; [done|]. split; [|done].
        rewrite graded_cons_some by done. by rewrite Hpre.
Qed.

(** What [find_top_performer] prints when some student has a grade and
    every grade converts to a float. *)
Lemma find_top_performer_graded students :
  grades_in_float_range students ->
  graded students <> [] ->
  exists a s b,
    graded students = a ++ s :: b
    /\ find_top_performer students
       = ([TopPerformer (name s) (rounded_mean (grades s))], Returned)
    /\ (forall s', In s' a ->
          float_gt (rounded_mean (grades s)) (rounded_mean (grades s')) = true)
    /\ (forall s', In s' b ->
          float_gt (rounded_mean (grades s')) (rounded_mean (grades s)) = false).
Proof.
  intros Hr Hne. unfold find_top_performer. rewrite valid_students_graded by done.
  pose proof (graded_means_finite students) as Hfin.
  destruct (graded students) as [|x l] eqn:Hg; [done|].
  set (f := fun s : student => (name s, rounded_mean (grades s))) in *.
  cbn [map].
  destruct (max_by_average_scan (map f l) (f x) [] [])
    as (a' & b' & Heq & Ha' & Hb').
  { intros y Hy. apply Hfin; [done|]. by right. }
  { by intros y []. }
  { by intros y []. }
  simpl in Heq. change (f x :: map f l) with (map f (x :: l)) in Heq.
  apply map_eq_app in Heq as (la & lr & Hsplit & Hla & Hlr).
  apply map_eq_cons in Hlr as (s & lb & -> & Hs & Hlb).
  exists la, s, lb. split; [done|]. rewrite <- Hs in *. split; [done|]. split.
  - intros s' Hs'. apply (Ha' (f s')). rewrite <- Hla. by apply in_map.
  - intros s' Hs'. apply (Hb' (f s')). rewrite <- Hlb. by apply in_map.
Qed.

(** C9: [find_top_performer] looks only at students with at least one
    grade and prints the name and average of the first student, in roster
    order, whose average (the float that the division gives) is maximal:
    it is greater than that of every such student before it, and no such
    student after it has a greater one.  When no student has a grade it
    prints the "No top student found" line instead.  Over
    [A: [90], B: [95], C: []] it prints B with average 95.  The grades
    are taken to convert to floats. *)
Theorem find_top_performer_first_max students :
  grades_in_float_range students ->
  ((forall s, In s students -> grades s = []) ->
   find_top_performer students = ([no_top_student], Returned))
  /\ ((exists s, In s students /\ grades s <> []) ->
      exists pre s post,
        students = pre ++ s :: post
        /\ grades s <> []
        /\ find_top_performer students
           = ([TopPerformer (name s) (rounded_mean (grades s))], Returned)
        /\ (forall s', In s' pre -> grades s' <> [] ->
              float_gt (rounded_mean (grades s)) (rounded_mean (grades s')) = true)
        /\ (forall s', In s' post -> grades s' <> [] ->
              float_gt (rounded_mean (grades s')) (rounded_mean (grades s)) = false))
  /\ find_top_performer [Student "A" [90]; Student "B" [95]; Student "C" []]
     = ([TopPerformer "B" (Finite 95)], Returned).
Proof.
  intros Hr. split; [|split; [|reflexivity]].
  - intros Hall. unfold find_top_performer, valid_students.
    by rewrite valid_students_no_grades.
  - intros (s0 & Hs0 & Hne0).
    assert (graded students <> []) as Hne.
    { intros Hnil. assert (In s0 (graded students)) as Hin by (by apply In_graded).
      by rewrite Hnil in Hin. }
    destruct (find_top_performer_graded students Hr Hne)
      as (a & s & b & Hsplit & Htop & Ha & Hb).
    destruct (graded_split _ _ _ _ Hsplit) as (pre & post & -> & Hpre & Hpost).
    exists pre, s, post. split; [done|].
    assert (In s (graded (pre ++ s :: post))) as Hin.
    { rewrite Hsplit. apply in_app_iff. right. by left. }
    apply In_graded in Hin as [_ Hsne]. split; [done|]. split; [done|]. split.
    + intros s' Hs' Hne'. apply Ha. rewrite <- Hpre. by apply In_graded.
    + intros s' Hs' Hne'. apply Hb. rewrite <- Hpost. by apply In_graded.
Qed.

Lemma find_top_performer_first_max_witness :
  let students := [Student "A" [90]; Student "B" [80; 100]; Student "C" []] in
  grades_in_float_range students
  /\ (exists s, In s students /\ grades s <> [])
  /\ find_top_performer students = ([TopPerformer "A" (Finite 90)], Returned)
  /\ exists pre s post,
        students = pre ++ s :: post
        /\ grades s <> []
        /\ find_top_performer students
           = ([TopPerformer (name s) (rounded_mean (grades s))], Returned)
        /\ (forall s', In s' pre -> grades s' <> [] ->
              float_gt (rounded_mean (grades s)) (rounded_mean (grades s')) = true)
        /\ (forall s', In s' post -> grades s' <> [] ->
              float_gt (rounded_mean (grades s')) (rounded_mean (grades s)) = false).
Proof.
  intros students.
  assert (Hr : grades_in_float_range students).
  { repeat constructor; intros E; discriminate E. }
  assert (H : exists s, In s students /\ grades s <> []).
  { exists (Student "A" [90]). split; [by left | done]. }
  split; [exact Hr|]. split; [exact H|]. split; [reflexivity|].
  exact (proj1 (proj2 (find_top_performer_first_max students Hr)) H).
Defined.

(** ** The console and main *)

Lemma user_input_shorter retries : forall c out s c',
  user_input retries c = (out, inr (s, c')) -> (length c' < length c)%nat.
Proof.
  induction retries as [|retries IH]; intros c out s c'.
  - destruct c as [|[]]; simpl; try done. intros [= _ _ <-]. lia.
  - destruct c as [|[] rest]; simpl; try done.
    + intros [= _ _ <-]. lia.
    + destruct (user_input retries rest) as [o r] eqn:Hu. intros [= _ ->].
      apply IH in Hu. lia.
    + destruct (user_input retries rest) as [o r] eqn:Hu. intros [= _ ->].
      apply IH in Hu. lia.
Qed.

Lemma user_input_capitalized retries : forall c out s c',
  user_input retries c = (out, inr (s, c')) -> capitalize s = s.
Proof.
  induction retries as [|retries IH]; intros c out s c'.
  - destruct c as [|[]]; simpl; try done. intros [= _ <- _]. apply capitalize_idem.
  - destruct c as [|[] rest]; simpl; try done.
    + intros [= _ <- _]. apply capitalize_idem.
    + destruct (user_input retries rest) as [o r] eqn:Hu. intros [= _ ->].
      by apply IH in Hu.
    + destruct (user_input retries rest) as [o r] eqn:Hu. intros [= _ ->].
      by apply IH in Hu.
Qed.

(** [user_input] lets two exceptions through: the end of the console and
    the recursion limit. *)
Lemma user_input_exn retries : forall c out e,
  user_input retries c = (out, inl e) -> e = EOFError \/ e = RecursionError.
Proof.
  induction retries as [|retries IH]; intros c out e.
  - destruct c as [|[]]; simpl; try done; intros [= _ <-]; auto.
  - destruct c as [|[] rest]; simpl; try done.
    + intros [= _ <-]. auto.
    + destruct (user_input retries rest) as [o r] eqn:Hu. intros [= _ ->].
      by apply IH in Hu.
    + destruct (user_input retries rest) as [o r] eqn:Hu. intros [= _ ->].
      by apply IH in Hu.
Qed.

Lemma snd_bind {A B : Type} (m : io A) (k : A -> io B) c :
  snd (bind m k c)
  = match snd (m c) with
    | inl e => inl e
    | inr (a, c') => snd (k a c')
    end.
Proof.
  unfold bind. destruct (m c) as [o [e|[a c']]]; [done|]. simpl.
  by destruct (k a c').
Qed.

Lemma lower_capitalize s : lower (capitalize s) = lower s.
Proof. apply case_variant_capitalize. Qed.

Lemma done_eqb line :
  String.eqb (lower (capitalize line)) "done" = true <-> case_variant line "done".
Proof. rewrite lower_capitalize, String.eqb_eq. reflexivity. Qed.

Lemma names_app a b : names (a ++ b) = names a ++ names b.
Proof. apply map_app. Qed.

(** [add_grades] either raises and leaves the roster as it was, or
    overwrites the grades of one record and returns. *)
Lemma add_grades_cases n gs students :
  add_grades n gs students
  = (students, Raised (ValueError "Student does not exist"))
  \/ exists pre g0 post,
       students = pre ++ Student n g0 :: post
       /\ add_grades n gs students = (pre ++ Student n gs :: post, Returned).
Proof.
  destruct (in_dec string_dec n (names students)) as [Hin|Hout].
  - right. destruct (In_names_split _ _ Hin) as (pre & g0 & post & -> & Hpre).
    exists pre, g0, post. split; [done|]. by apply add_grades_first_match.
  - left. unfold add_grades. by apply add_grades_loop_absent.
Qed.

Lemma grades_valid_add_new_student n students :
  grades_valid students -> grades_valid (fst (add_new_student n students)).
Proof.
  intros Hg. unfold add_new_student.
  destruct (is_student_exists n students); simpl; [done|].
  apply Forall_app. split; [done|]. apply Forall_singleton. simpl. constructor.
Qed.

Lemma grades_valid_add_grades n gs students :
  Forall valid_grade gs ->
  grades_valid students -> grades_valid (fst (add_grades n gs students)).
Proof.
  intros Hgs Hg.
  destruct (add_grades_cases n gs students) as [->|(pre & g0 & post & -> & ->)];
    simpl; [done|].
  apply Forall_app in Hg as [Hpre Hpost]. apply Forall_cons in Hpost as [_ Hpost].
  apply Forall_app. split; [done|]. by apply Forall_cons.
Qed.

Lemma names_valid_add_new_student n students :
  capitalize n = n ->
  names_valid students -> names_valid (fst (add_new_student n students)).
Proof.
  intros Hcap (Hn & Hnd). unfold add_new_student.
  destruct (is_student_exists n students) eqn:Hex; simpl; [done|]. split.
  - apply Forall_app. split; [done|]. by apply Forall_singleton.
  - rewrite names_app. simpl. apply NoDup_app. split; [done|]. split.
    + intros x Hx ->%list_elem_of_singleton.
      apply list_elem_of_In in Hx. rewrite <- Hcap in Hx.
      apply is_student_exists_In in Hx. congruence.
    + apply NoDup_singleton.
Qed.

Lemma names_valid_add_grades n gs students :
  names_valid students -> names_valid (fst (add_grades n gs students)).
Proof.
  intros (Hn & Hnd).
  destruct (add_grades_cases n gs students) as [->|(pre & g0 & post & -> & ->)];
    simpl; [done|]. split.
  - apply Forall_app in Hn as [Hpre Hpost]. apply Forall_cons in Hpost as [H0 Hpost].
    apply Forall_app. split; [done|]. by apply Forall_cons.
  - by rewrite names_app in *.
Qed.

Lemma length_add_new_student n students :
  (length (fst (add_new_student n students)) <= S (length students))%nat.
Proof.
  unfold add_new_student. destruct (is_student_exists n students); simpl; [lia|].
  rewrite length_app. simpl. lia.
Qed.

Lemma length_add_grades n gs students :
  length (fst (add_grades n gs students)) = length students.
Proof.
  destruct (add_grades_cases n gs students) as [->|(pre & g0 & post & -> & ->)];
    simpl; [done|].
  by rewrite !length_app.
Qed.

(** With every grade and the number of students in the range of the
    floats the report raises nothing. *)
Lemma show_report_returns students :
  grades_in_float_range students -> float_range (len students) ->
  snd (show_report students) = Returned.
Proof.
  intros Hr Hlen. rewrite show_report_parts by done. simpl.
  destruct (graded students) as [|s l] eqn:Hg; [done|].
  destruct (average_of_averages_defined students) as [q Hq]; [by rewrite Hg|done|].
  by rewrite Hq.
Qed.

Lemma find_top_performer_returns students :
  grades_in_float_range students -> snd (find_top_performer students) = Returned.
Proof.
  intros Hr. destruct (graded students) as [|s l] eqn:Hg.
  - unfold find_top_performer, valid_students.
    rewrite valid_students_no_grades; [done|]. by apply graded_nil.
  - destruct (find_top_performer_graded students Hr) as (a & x & b & _ & -> & _);
      [by rewrite Hg|done].
Qed.

Lemma final_roster_after out o : final_roster (after out o) = final_roster o.
Proof. by destruct o as [[o1 st] cm]. Qed.

Lemma final_completion_after out o :
  final_completion (after out o) = final_completion o.
Proof. by destruct o as [[o1 st] cm]. Qed.

Section Console.
Variable int : string -> option Z.
Variable headroom : nat.

Lemma input_grades_loop_sound fuel : forall gs c out gs' c',
  Forall valid_grade gs ->
  input_grades_loop int headroom fuel gs c = (out, inr (gs', c')) ->
  Forall valid_grade gs' /\ (length c' < length c)%nat.
Proof.
  induction fuel as [|fuel IH]; intros gs c out gs' c' Hgs; simpl; [done|].
  unfold bind at 1.
  destruct (user_input headroom c) as [o [e|[s c1]]] eqn:Hu; [done|].
  apply user_input_shorter in Hu.
  destruct (String.eqb (lower s) "done").
  - unfold ret. intros [= _ <- <-]. done.
  - destruct (int s) as [g|].
    + destruct (Z.leb_spec 0 g); destruct (Z.leb_spec g 100); simpl.
      * destruct (input_grades_loop int headroom fuel (gs ++ [g]) c1) as [o1 r1] eqn:Hr.
        intros [= _ ->]. apply IH in Hr as [H1 H2]; [split; [done|lia]|].
        apply Forall_app. split; [done|]. apply Forall_singleton. by split.
      * unfold bind, print.
        destruct (input_grades_loop int headroom fuel gs c1) as [o1 r1] eqn:Hr.
        intros [= _ ->]. apply IH in Hr as [H1 H2]; [split; [done|lia]|done].
      * unfold bind, print.
        destruct (input_grades_loop int headroom fuel gs c1) as [o1 r1] eqn:Hr.
        intros [= _ ->]. apply IH in Hr as [H1 H2]; [split; [done|lia]|done].
      * unfold bind, print.
        destruct (input_grades_loop int headroom fuel gs c1) as [o1 r1] eqn:Hr.
        intros [= _ ->]. apply IH in Hr as [H1 H2]; [split; [done|lia]|done].
    + unfold bind, print.
      destruct (input_grades_loop int headroom fuel gs c1) as [o1 r1] eqn:Hr.
      intros [= _ ->]. apply IH in Hr as [H1 H2]; [split; [done|lia]|done].
Qed.

Lemma input_grades_loop_exn fuel : forall gs c out e,
  input_grades_loop int headroom fuel gs c = (out, inl e) ->
  e = EOFError \/ e = RecursionError.
Proof.
  induction fuel as [|fuel IH]; intros gs c out e; simpl.
  - intros [= _ <-]. by left.
  - unfold bind at 1.
    destruct (user_input headroom c) as [o [e1|[s c1]]] eqn:Hu.
    + intros [= _ <-]. by apply user_input_exn in Hu.
    + destruct (String.eqb (lower s) "done"); [done|].
      destruct (int s) as [g|]; [destruct ((0 <=? g) && (g <=? 100))|];
        unfold bind, print;
        destruct (input_grades_loop int headroom fuel _ c1) as [o1 r1] eqn:Hr;
        intros [= _ ->]; by apply IH in Hr.
Qed.

(** Fuel at least the length of the console is as good as any. *)
Lemma input_grades_loop_fuel fuel1 : forall fuel2 gs c,
  (length c <= fuel1)%nat -> (length c <= fuel2)%nat ->
  input_grades_loop int headroom fuel1 gs c
  = input_grades_loop int headroom fuel2 gs c.
Proof.
  induction fuel1 as [|fuel1 IH]; intros fuel2 gs c H1 H2.
  - destruct c; [|simpl in H1; lia]. destruct fuel2; reflexivity.
  - destruct fuel2 as [|fuel2].
    { destruct c; [|simpl in H2; lia]. reflexivity. }
    simpl. unfold bind, print.
    destruct (user_input headroom c) as [o [e|[s c1]]] eqn:Hu; [done|].
    apply user_input_shorter in Hu.
    destruct (String.eqb (lower s) "done"); [done|].
    destruct (int s) as [g|]; [destruct ((0 <=? g) && (g <=? 100))|];
      by rewrite (IH fuel2) by lia.
Qed.

Lemma input_grades_sound c out gs c' :
  input_grades int headroom c = (out, inr (gs, c')) ->
  Forall valid_grade gs /\ (length c' < length c)%nat.
Proof. unfold input_grades. by apply input_grades_loop_sound. Qed.

(** Typed lines up to the first "done": each is kept as a grade or
    answered with its complaint. *)
Lemma input_grades_loop_lines lines : forall fuel gs d rest,
  Forall (fun line => ~ case_variant line "done") lines ->
  case_variant d "done" ->
  (length lines < fuel)%nat ->
  input_grades_loop int headroom fuel gs (map Typed lines ++ Typed d :: rest)
  = (concat (map (complaint_of_line int) lines),
     inr (gs ++ omap (grade_of_line int) lines, rest)).
Proof.
  induction lines as [|line lines IH]; intros fuel gs d rest Hl Hd Hf.
  - destruct fuel as [|fuel]; [simpl in Hf; lia|].
    simpl. unfold bind. simpl.
    apply done_eqb in Hd. rewrite Hd. by rewrite app_nil_r.
  - destruct fuel as [|fuel]; [simpl in Hf; lia|].
    apply Forall_cons in Hl as [Hline Hl].
    assert (String.eqb (lower (capitalize line)) "done" = false) as Hnd.
    { destruct (String.eqb _ _) eqn:E; [|done]. by apply done_eqb in E. }
    simpl. unfold bind at 1. simpl. rewrite Hnd.
    unfold complaint_of_line at 1, grade_of_line at 1.
    simpl in Hf.
    destruct (int (capitalize line)) as [g|];
      [destruct ((0 <=? g) && (g <=? 100))|];
      unfold bind, print; simpl;
      rewrite (IH fuel _ d rest Hl Hd) by lia; simpl;
      by rewrite <- ?app_assoc.
Qed.

Lemma input_grades_lines lines d rest :
  Forall (fun line => ~ case_variant line "done") lines ->
  case_variant d "done" ->
  input_grades int headroom (map Typed lines ++ Typed d :: rest)
  = (concat (map (complaint_of_line int) lines),
     inr (omap (grade_of_line int) lines, rest)).
Proof.
  intros Hl Hd. unfold input_grades.
  rewrite input_grades_loop_lines; [done|done|done|].
  rewrite length_app, length_map. simpl. lia.
Qed.

(** A property of the roster that the two mutating operations keep is
    kept by the whole loop.  [read] is what is known of a line returned
    by [user_input]. *)
Section Invariant.

Variable read : string -> Prop.
Hypothesis user_input_read :
  forall retries c out s c', user_input retries c = (out, inr (s, c')) -> read s.

Variable P : roster -> Prop.
Hypothesis P_add_new_student :
  forall n students, read n -> P students -> P (fst (add_new_student n students)).
Hypothesis P_add_grades :
  forall n gs students,
    Forall valid_grade gs -> P students -> P (fst (add_grades n gs students)).

Lemma main_loop_invariant fuel : forall students c,
  P students -> P (final_roster (main_loop int headroom fuel students c)).
Proof.
  induction fuel as [|fuel IH]; intros students c HP; [done|].
  cbn [main_loop]. unfold bind, print.
  destruct (user_input (S headroom) c) as [o [e|[choice c1]]] eqn:Hu; [done|].
  cbn beta iota. rewrite final_roster_after.
  destruct (String.eqb choice "1").
  { destruct (user_input (S headroom) c1) as [o1 [e|[student_name c2]]] eqn:Hu1; [done|].
    apply user_input_read in Hu1.
    pose proof (P_add_new_student student_name students Hu1 HP) as HP'.
    destruct (add_new_student student_name students) as [students' out'].
    rewrite final_roster_after. by apply IH. }
  destruct (String.eqb choice "2").
  { destruct (user_input (S headroom) c1) as [o1 [e|[student_name c2]]] eqn:Hu1; [done|].
    destruct (negb (is_student_exists student_name students)).
    { rewrite final_roster_after. by apply IH. }
    destruct (input_grades int headroom c2) as [o2 [e|[gs c3]]] eqn:Hi; [done|].
    apply input_grades_sound in Hi as [Hgs _].
    pose proof (P_add_grades student_name gs students Hgs HP) as HP'.
    destruct (add_grades student_name gs students) as [students' [|e]]; [|done].
    rewrite final_roster_after. by apply IH. }
  destruct (String.eqb choice "3").
  { destruct (show_report students) as [o3 [|e]]; [|done].
    rewrite final_roster_after. by apply IH. }
  destruct (String.eqb choice "4").
  { destruct (find_top_performer students) as [o4 [|e]]; [|done].
    rewrite final_roster_after. by apply IH. }
  destruct (String.eqb choice "5"); [done|].
  rewrite final_roster_after. by apply IH.
Qed.

End Invariant.

(** Every grade that a run of the loop stores has passed the range check
    of [input_grades]. *)
Lemma main_loop_grades_valid fuel students c :
  grades_valid students ->
  grades_valid (final_roster (main_loop int headroom fuel students c)).
Proof.
  apply (main_loop_invariant (fun _ => True)); [done| |].
  - intros n sts _. apply grades_valid_add_new_student.
  - intros n gs sts. apply grades_valid_add_grades.
Qed.

(** On the ASCII names of this model [user_input] returns a fixed point of
    [capitalize], so the loop stores capitalized, pairwise distinct
    names. *)
Lemma main_loop_names_valid fuel students c :
  names_valid students ->
  names_valid (final_roster (main_loop int headroom fuel students c)).
Proof.
  apply (main_loop_invariant (fun s => capitalize s = s)).
  - apply user_input_capitalized.
  - apply names_valid_add_new_student.
  - intros n gs sts _. apply names_valid_add_grades.
Qed.

(** The name that the loop passes to [add_grades] after the
    [is_student_exists] test is found, and with grades between 0 and 100
    and fewer students than the floats can count the report and the
    search for the top performer raise nothing: the only exceptions that
    leave the loop are those of [user_input]. *)
Lemma main_loop_completion fuel : forall students c,
  grades_valid students ->
  float_range (Z.of_nat (length students + length c)) ->
  final_completion (main_loop int headroom fuel students c) = Returned
  \/ final_completion (main_loop int headroom fuel students c) = Raised EOFError
  \/ final_completion (main_loop int headroom fuel students c)
     = Raised RecursionError.
Proof.
  assert (Hexn : forall e : exn,
            e = EOFError \/ e = RecursionError ->
            forall (o : list printed) (students : roster),
              final_completion (o, students, Raised e) = Returned
              \/ final_completion (o, students, Raised e) = Raised EOFError
              \/ final_completion (o, students, Raised e) = Raised RecursionError).
  { intros e [->| ->] o students; auto. }
  induction fuel as [|fuel IH]; intros students c Hg Hlen; [right; by left|].
  cbn [main_loop]. unfold bind, print.
  destruct (user_input (S headroom) c) as [o [e|[choice c1]]] eqn:Hu.
  { apply user_input_exn in Hu. by apply Hexn. }
  apply user_input_shorter in Hu.
  cbn beta iota. rewrite final_completion_after.
  assert (forall n m : nat, (n <= length students + length c)%nat ->
            float_range (Z.of_nat n)) as Hsmall.
  { unfold float_range in *. intros n m Hn. lia. }
  destruct (String.eqb choice "1").
  { destruct (user_input (S headroom) c1) as [o1 [e|[student_name c2]]] eqn:Hu1.
    { apply user_input_exn in Hu1. by apply Hexn. }
    apply user_input_shorter in Hu1.
    pose proof (grades_valid_add_new_student student_name students Hg) as Hg'.
    pose proof (length_add_new_student student_name students) as Hl'.
    destruct (add_new_student student_name students) as [students' out'].
    rewrite final_completion_after. simpl in Hg', Hl'.
    apply IH; [done|]. apply (Hsmall _ O). lia. }
  destruct (String.eqb choice "2").
  { destruct (user_input (S headroom) c1) as [o1 [e|[student_name c2]]] eqn:Hu1.
    { apply user_input_exn in Hu1. by apply Hexn. }
    pose proof (user_input_shorter _ _ _ _ _ Hu1) as Hs1.
    apply user_input_capitalized in Hu1.
    destruct (is_student_exists student_name students) eqn:Hex; simpl.
    2:{ rewrite final_completion_after. apply IH; [done|]. apply (Hsmall _ O). lia. }
    destruct (input_grades int headroom c2) as [o2 [e|[gs c3]]] eqn:Hi.
    { apply input_grades_loop_exn in Hi. by apply Hexn. }
    apply input_grades_sound in Hi as [Hgs Hs2].
    pose proof (grades_valid_add_grades student_name gs students Hgs Hg) as Hg'.
    pose proof (length_add_grades student_name gs students) as Hl'.
    destruct (add_grades_of_exists student_name gs students Hu1 Hex)
      as (pre & g0 & post & Hst & _ & Hadd).
    rewrite Hadd in *. simpl in Hg', Hl'.
    rewrite final_completion_after. apply IH; [done|]. apply (Hsmall _ O). lia. }
  destruct (String.eqb choice "3").
  { pose proof (show_report_returns students) as Hret.
    destruct (show_report students) as [o3 cm]. simpl in Hret.
    rewrite Hret.
    2:{ by apply grades_valid_float_range. }
    2:{ apply (Hsmall _ O). lia. }
    rewrite final_completion_after. apply IH; [done|]. apply (Hsmall _ O). lia. }
  destruct (String.eqb choice "4").
  { pose proof (find_top_performer_returns students) as Hret.
    destruct (find_top_performer students) as [o4 cm]. simpl in Hret.
    rewrite Hret by (by apply grades_valid_float_range).
    rewrite final_completion_after. apply IH; [done|]. apply (Hsmall _ O). lia. }
  destruct (String.eqb choice "5"); [by left|].
  rewrite final_completion_after. apply IH; [done|]. apply (Hsmall _ O). lia.
Qed.

(** Fuel above the length of the console is as good as any. *)
Lemma main_loop_fuel fuel1 : forall fuel2 students c,
  (length c < fuel1)%nat -> (length c < fuel2)%nat ->
  main_loop int headroom fuel1 students c = main_loop int headroom fuel2 students c.
Proof.
  induction fuel1 as [|fuel1 IH]; intros fuel2 students c H1 H2; [lia|].
  destruct fuel2 as [|fuel2]; [lia|].
  cbn [main_loop]. unfold bind, print.
  destruct (user_input (S headroom) c) as [o [e|[choice c1]]] eqn:Hu; [done|].
  cbn beta iota.
  apply user_input_shorter in Hu. f_equal.
  destruct (String.eqb choice "1").
  { destruct (user_input (S headroom) c1) as [o1 [e|[student_name c2]]] eqn:Hu1; [done|].
    apply user_input_shorter in Hu1.
    destruct (add_new_student student_name students) as [students' out'].
    by rewrite (IH fuel2) by lia. }
  destruct (String.eqb choice "2").
  { destruct (user_input (S headroom) c1) as [o1 [e|[student_name c2]]] eqn:Hu1; [done|].
    apply user_input_shorter in Hu1.
    destruct (negb (is_student_exists student_name students)).
    { by rewrite (IH fuel2) by lia. }
    destruct (input_grades int headroom c2) as [o2 [e|[gs c3]]] eqn:Hi; [done|].
    apply input_grades_sound in Hi as [_ Hlen].
    destruct (add_grades student_name gs students) as [students' [|e]]; [|done].
    by rewrite (IH fuel2) by lia. }
  destruct (String.eqb choice "3").
  { destruct (show_report students) as [o3 [|e]]; [|done].
    by rewrite (IH fuel2) by lia. }
  destruct (String.eqb choice "4").
  { destruct (find_top_performer students) as [o4 [|e]]; [|done].
    by rewrite (IH fuel2) by lia. }
  destruct (String.eqb choice "5"); [done|].
  by rewrite (IH fuel2) by lia.
Qed.

Lemma main_grades_valid c : grades_valid (final_roster (main int headroom c)).
Proof. apply main_loop_grades_valid. constructor. Qed.

Lemma main_names_valid c : names_valid (final_roster (main int headroom c)).
Proof. apply main_loop_names_valid. split; constructor. Qed.

End Console.

(** C3 as stated fails: [add_grades] makes no range check and stores the
    list it is given. *)
Lemma add_grades_stores_out_of_range :
  ~ valid_grade 101 /\ ~ valid_grade (-1)
  /\ add_grades "Alice" [101; -1] [Student "Alice" []]
     = ([Student "Alice" [101; -1]], Returned).
Proof. unfold valid_grade. repeat split; lia. Qed.

(** C3, amended: the range check is made where grades are read, not in
    [add_grades].  Of the lines typed up to the first "done" (in any
    case) [input_grades] returns, in order and unchanged, exactly those
    that read as an integer between 0 and 100; every other line is
    answered with its message and the prompt is repeated (a value out of
    range is dropped, not clamped).  So every list that [input_grades]
    returns, and with it every grade stored in a run of [main], is
    between 0 and 100. *)
Theorem grades_checked_at_input (int : string -> option Z) (headroom : nat)
    (lines : list string) (d : string) (rest c : console) :
  Forall (fun line => ~ case_variant line "done") lines ->
  case_variant d "done" ->
  input_grades int headroom (map Typed lines ++ Typed d :: rest)
  = (concat (map (complaint_of_line int) lines),
     inr (omap (grade_of_line int) lines, rest))
  /\ (forall out gs c',
        input_grades int headroom c = (out, inr (gs, c')) -> Forall valid_grade gs)
  /\ grades_valid (final_roster (main int headroom c)).
Proof.
  intros Hl Hd. split; [by apply input_grades_lines|]. split.
  - intros out gs c' H. by apply input_grades_sound in H as [H _].
  - apply main_grades_valid.
Qed.

Lemma grades_checked_at_input_witness :
  let lines := ["101"; "-1"; "abc"; "85"; "100"; "0"] in
  let session :=
    map Typed ["1"; "alice"; "2"; "ALICE"; "101"; "-1"; "abc"; "85"; "done"; "5"] in
  Forall (fun line => ~ case_variant line "done") lines
  /\ case_variant "Done" "done"
  /\ input_grades int_decimal 995 (map Typed lines ++ [Typed "Done"; Typed "5"])
     = ([grade_out_of_range; grade_out_of_range; invalid_grade],
        inr ([85; 100; 0], [Typed "5"]))
  /\ final_roster (main int_decimal 995 session) = [Student "Alice" [85]]
  /\ grades_valid (final_roster (main int_decimal 995 session)).
Proof.
  intros lines session.
  assert (Hl : Forall (fun line => ~ case_variant line "done") lines)
    by (repeat constructor; discriminate).
  assert (Hd : case_variant "Done" "done") by reflexivity.
  split; [exact Hl|]. split; [exact Hd|].
  pose proof (grades_checked_at_input int_decimal 995 lines "Done" [Typed "5"]
                session Hl Hd) as (H1 & _ & H3).
  split; [exact H1|]. split; [reflexivity|exact H3].
Defined.

(** * Further properties *)

(** ** user_input *)

Lemma user_input_skips skipped : forall retries c,
  Forall (fun e => is_typed e = false) skipped ->
  (length skipped <= retries)%nat ->
  user_input retries (skipped ++ c)
  = (concat (map retry_message skipped)
       ++ fst (user_input (retries - length skipped) c),
     snd (user_input (retries - length skipped) c)).
Proof.
  induction skipped as [|e skipped IH]; intros retries c Hs Hlen; simpl.
  - rewrite Nat.sub_0_r. by destruct (user_input retries c).
  - apply Forall_cons in Hs as [He Hs]. simpl in Hlen.
    destruct retries as [|retries]; [lia|].
    destruct e; [done| |]; rewrite IH by (done || lia); reflexivity.
Qed.

(** X1: [user_input] tries again after every Ctrl-C and every failed read,
    printing one message for each, and returns the first line that is
    typed, capitalized; what follows that line on the console is left
    unread.  This holds while the attempts without a line are no more
    than the nested calls that the recursion limit allows. *)
Theorem user_input_first_line retries skipped line rest :
  Forall (fun e => is_typed e = false) skipped ->
  (length skipped <= retries)%nat ->
  user_input retries (skipped ++ Typed line :: rest)
  = (concat (map retry_message skipped), inr (capitalize line, rest)).
Proof.
  intros H Hlen. rewrite (user_input_skips _ _ _ H Hlen).
  destruct (retries - length skipped)%nat; simpl; by rewrite app_nil_r.
Qed.

Lemma user_input_first_line_witness :
  Forall (fun e => is_typed e = false) [Interrupt; InputFailure; Interrupt]
  /\ (length [Interrupt; InputFailure; Interrupt] <= 3)%nat
  /\ user_input 3 ([Interrupt; InputFailure; Interrupt] ++ Typed "bOB" :: [Typed "2"])
     = ([Text "Use menu for exit"; Text "Invalid input"; Text "Use menu for exit"],
        inr ("Bob", [Typed "2"])).
Proof.
  assert (H : Forall (fun e => is_typed e = false) [Interrupt; InputFailure; Interrupt])
    by (repeat constructor).
  assert (Hlen : (length [Interrupt; InputFailure; Interrupt] <= 3)%nat)
    by (simpl; lia).
  split; [exact H|]. split; [exact Hlen|].
  exact (user_input_first_line 3 _ "bOB" [Typed "2"] H Hlen).
Defined.

(** X2: when no line is typed any more, [user_input] ends in [EOFError]
    after one message for each attempt; it returns no text.  This holds
    while the attempts are no more than the nested calls that the
    recursion limit allows. *)
Theorem user_input_end_of_input retries c :
  Forall (fun e => is_typed e = false) c ->
  (length c <= retries)%nat ->
  user_input retries c = (concat (map retry_message c), inl EOFError).
Proof.
  intros H Hlen. rewrite <- (app_nil_r c) at 1.
  rewrite (user_input_skips _ _ _ H Hlen).
  destruct (retries - length c)%nat; simpl; by rewrite app_nil_r.
Qed.

Lemma user_input_end_of_input_witness :
  Forall (fun e => is_typed e = false) [Interrupt; Interrupt]
  /\ (length [Interrupt; Interrupt] <= 2)%nat
  /\ user_input 2 [Interrupt; Interrupt]
     = ([Text "Use menu for exit"; Text "Use menu for exit"], inl EOFError).
Proof.
  assert (H : Forall (fun e => is_typed e = false) [Interrupt; Interrupt])
    by (repeat constructor).
  assert (Hlen : (length [Interrupt; Interrupt] <= 2)%nat) by (simpl; lia).
  split; [exact H|]. split; [exact Hlen|].
  exact (user_input_end_of_input 2 _ H Hlen).
Defined.

(** X27: the retries of [user_input] are nested calls, so they are
    bounded: when one attempt more than the recursion limit allows gives
    no line, [user_input] prints a message for each of them and ends in
    [RecursionError], whatever is typed afterwards. *)
Theorem user_input_recursion_limit retries skipped c :
  Forall (fun e => is_typed e = false) skipped ->
  length skipped = S retries ->
  user_input retries (skipped ++ c)
  = (concat (map retry_message skipped), inl RecursionError).
Proof.
  revert retries. induction skipped as [|e skipped IH]; intros retries Hs Hlen;
    [done|].
  apply Forall_cons in Hs as [He Hs]. simpl in Hlen.
  destruct retries as [|retries].
  - destruct skipped; [|done]. by destruct e.
  - destruct e; [done| |]; simpl; rewrite IH by (done || lia); reflexivity.
Qed.

Lemma user_input_recursion_limit_witness :
  Forall (fun e => is_typed e = false) [Interrupt; InputFailure; Interrupt]
  /\ length [Interrupt; InputFailure; Interrupt] = 3%nat
  /\ user_input 2 ([Interrupt; InputFailure; Interrupt] ++ [Typed "5"])
     = ([Text "Use menu for exit"; Text "Invalid input"; Text "Use menu for exit"],
        inl RecursionError).
Proof.
  assert (H : Forall (fun e => is_typed e = false) [Interrupt; InputFailure; Interrupt])
    by (repeat constructor).
  split; [exact H|]. split; [reflexivity|].
  exact (user_input_recursion_limit 2 _ [Typed "5"] H eq_refl).
Defined.

(** Every line that [user_input] returns was typed, after attempts that
    gave none. *)
Lemma user_input_inv c : forall retries out s c',
  user_input retries c = (out, inr (s, c')) ->
  exists skipped line,
    c = skipped ++ Typed line :: c'
    /\ Forall (fun e => is_typed e = false) skipped
    /\ s = capitalize line.
Proof.
  induction c as [|e rest IH]; intros retries out s c'; simpl; [done|].
  destruct e.
  - intros [= _ <- <-]. by exists [], line.
  - destruct retries as [|retries]; [done|].
    destruct (user_input retries rest) as [o r] eqn:Hu. intros [= _ ->].
    destruct (IH _ _ _ _ Hu) as (sk & l & -> & Hsk & ->).
    exists (Interrupt :: sk), l. split; [done|]. split; [by constructor|done].
  - destruct retries as [|retries]; [done|].
    destruct (user_input retries rest) as [o r] eqn:Hu. intros [= _ ->].
    destruct (IH _ _ _ _ Hu) as (sk & l & -> & Hsk & ->).
    exists (InputFailure :: sk), l. split; [done|]. split; [by constructor|done].
Qed.

(** ** input_grades *)

Section Grades.
Variable int : string -> option Z.
Variable headroom : nat.

(** X3: of the lines typed before "done", [input_grades] returns exactly
    those that read as an integer between 0 and 100, in the order typed,
    and prints one complaint for each of the others; "done" is recognised
    in any case, and what follows it on the console is left unread. *)
Theorem input_grades_keeps_valid_lines lines d rest :
  Forall (fun line => ~ case_variant line "done") lines ->
  case_variant d "done" ->
  input_grades int headroom (map Typed lines ++ Typed d :: rest)
  = (concat (map (complaint_of_line int) lines),
     inr (omap (grade_of_line int) lines, rest)).
Proof. apply input_grades_lines. Qed.

Lemma never_done_app a b : never_done (a ++ b) <-> never_done a /\ never_done b.
Proof. apply Forall_app. Qed.

Lemma input_grades_loop_never_done fuel : forall gs c,
  never_done c ->
  snd (input_grades_loop int headroom fuel gs c) = inl EOFError
  \/ snd (input_grades_loop int headroom fuel gs c) = inl RecursionError.
Proof.
  induction fuel as [|fuel IH]; intros gs c Hc; [by left|].
  cbn [input_grades_loop]. rewrite snd_bind.
  destruct (user_input headroom c) as [o [e|[s c1]]] eqn:Hu; simpl.
  { apply user_input_exn in Hu as [->| ->]; auto. }
  destruct (user_input_inv _ _ _ _ _ Hu) as (sk & line & -> & Hsk & ->).
  apply never_done_app in Hc as [_ Hc]. apply Forall_cons in Hc as [Hline Hc1].
  assert (String.eqb (lower (capitalize line)) "done" = false) as Hnd.
  { destruct (String.eqb _ _) eqn:E; [|done]. by apply done_eqb in E. }
  rewrite Hnd.
  destruct (int (capitalize line)) as [g|];
    [destruct ((0 <=? g) && (g <=? 100))|];
    rewrite ?snd_bind; simpl; by apply IH.
Qed.

(** X4: "done" is the only way out of [input_grades] with a list: on a
    console where it is never typed the function returns none and ends
    in an exception of [user_input], [EOFError] when the console is
    exhausted or [RecursionError] when too many reads in a row fail. *)
Theorem input_grades_needs_done c :
  never_done c ->
  snd (input_grades int headroom c) = inl EOFError
  \/ snd (input_grades int headroom c) = inl RecursionError.
Proof. intros H. unfold input_grades. by apply input_grades_loop_never_done. Qed.

End Grades.

Lemma input_grades_keeps_valid_lines_witness :
  Forall (fun line => ~ case_variant line "done") ["90"; "abc"; "101"; "0"; "-5"; "100"]
  /\ case_variant "DoNe" "done"
  /\ input_grades int_decimal 995
       (map Typed ["90"; "abc"; "101"; "0"; "-5"; "100"] ++ Typed "DoNe" :: [Typed "5"])
     = ([invalid_grade; grade_out_of_range; grade_out_of_range],
        inr ([90; 0; 100], [Typed "5"])).
Proof.
  assert (H : Forall (fun line => ~ case_variant line "done")
                     ["90"; "abc"; "101"; "0"; "-5"; "100"])
    by (repeat constructor; discriminate).
  split; [exact H|]. split; [reflexivity|].
  exact (input_grades_keeps_valid_lines int_decimal 995 _ "DoNe" [Typed "5"] H eq_refl).
Defined.

Lemma input_grades_needs_done_witness :
  never_done [Typed "90"; Interrupt; Typed "80"]
  /\ snd (input_grades int_decimal 995 [Typed "90"; Interrupt; Typed "80"])
     = inl EOFError
  /\ (snd (input_grades int_decimal 995 [Typed "90"; Interrupt; Typed "80"])
      = inl EOFError
      \/ snd (input_grades int_decimal 995 [Typed "90"; Interrupt; Typed "80"])
         = inl RecursionError).
Proof.
  assert (H : never_done [Typed "90"; Interrupt; Typed "80"]).
  { repeat constructor; discriminate. }
  split; [exact H|]. split; [reflexivity|].
  exact (input_grades_needs_done int_decimal 995 _ H).
Defined.
(** ** add_grades and add_new_student together *)

Lemma add_grades_found_iff n gs students :
  snd (add_grades n gs students) = Returned <-> In n (names students).
Proof.
  split.
  - intros Hr. destruct (in_dec string_dec n (names students)) as [Hin|Hout]; [done|].
    unfold add_grades in Hr. by rewrite add_grades_loop_absent in Hr.
  - intros Hin. destruct (In_names_split _ _ Hin) as (pre & g0 & post & -> & Hpre).
    by rewrite add_grades_first_match.
Qed.

(** X5: [add_grades] returns normally exactly when some record carries the
    name as it is given (the comparison is exact, case included);
    otherwise it raises. *)
Theorem add_grades_returns_iff_named n gs students :
  (snd (add_grades n gs students) = Returned <-> In n (names students))
  /\ (snd (add_grades n gs students) = Raised (ValueError "Student does not exist")
      <-> ~ In n (names students)).
Proof.
  split; [apply add_grades_found_iff|]. split.
  - intros Hr Hin. apply (add_grades_found_iff n gs) in Hin. congruence.
  - intros Hout. unfold add_grades. by rewrite add_grades_loop_absent.
Qed.

Lemma add_grades_names n gs students :
  names (fst (add_grades n gs students)) = names students.
Proof.
  destruct (add_grades_cases n gs students) as [->|(pre & g0 & post & -> & ->)];
    simpl; [done|].
  by rewrite !names_app.
Qed.

(** X6: whatever its arguments, [add_grades] keeps the number, the order
    and the names of the records, so it never changes which names
    [is_student_exists] finds. *)
Theorem add_grades_keeps_names n gs students :
  names (fst (add_grades n gs students)) = names students
  /\ length (fst (add_grades n gs students)) = length students
  /\ forall m, is_student_exists m (fst (add_grades n gs students))
               = is_student_exists m students.
Proof.
  pose proof (add_grades_names n gs students) as Hn.
  split; [done|]. split.
  - rewrite <- (length_map name (fst _)), <- (length_map name students).
    unfold names in Hn. by rewrite Hn.
  - intros m. unfold is_student_exists. by rewrite Hn.
Qed.

(** X7: the last call wins.  Setting the grades of a name twice leaves
    the roster that the second call alone would leave, with the second
    call's outcome. *)
Theorem add_grades_last_wins n g1 g2 students :
  add_grades n g2 (fst (add_grades n g1 students)) = add_grades n g2 students.
Proof.
  destruct (in_dec string_dec n (names students)) as [Hin|Hout].
  - destruct (In_names_split _ _ Hin) as (pre & g0 & post & -> & Hpre).
    rewrite (add_grades_first_match n g1) by done. simpl.
    by rewrite !add_grades_first_match.
  - unfold add_grades at 2. by rewrite add_grades_loop_absent.
Qed.

Lemma add_grades_loop_shift n gs todo pre :
  add_grades_loop n gs (length pre) todo (pre ++ todo)
  = (pre ++ fst (add_grades n gs todo), snd (add_grades n gs todo)).
Proof.
  destruct (in_dec string_dec n (names todo)) as [Hin|Hout].
  - destruct (In_names_split _ _ Hin) as (mid & g0 & post & -> & Hmid).
    rewrite add_grades_loop_found by done.
    by rewrite add_grades_first_match.
  - rewrite add_grades_loop_absent by done.
    unfold add_grades. by rewrite add_grades_loop_absent.
Qed.

(** [add_grades] along the roster, one record at a time. *)
Lemma add_grades_cons n gs s rest :
  add_grades n gs (s :: rest)
  = if String.eqb n (name s)
    then ({| name := name s; grades := gs |} :: rest, Returned)
    else (s :: fst (add_grades n gs rest), snd (add_grades n gs rest)).
Proof.
  unfold add_grades at 1. simpl.
  destruct (String.eqb n (name s)); [done|].
  apply (add_grades_loop_shift n gs rest [s]).
Qed.

(** X8: the grades of two different names can be set in either order. *)
Theorem add_grades_commute n m g h students :
  n <> m ->
  fst (add_grades n g (fst (add_grades m h students)))
  = fst (add_grades m h (fst (add_grades n g students))).
Proof.
  intros Hnm. induction students as [|s rest IH]; [done|].
  rewrite (add_grades_cons m h s rest), (add_grades_cons n g s rest).
  destruct (String.eqb_spec m (name s)) as [Hm|Hm];
    destruct (String.eqb_spec n (name s)) as [Hn|Hn]; simpl.
  - congruence.
  - rewrite !add_grades_cons. simpl.
    destruct (String.eqb_spec n (name s)); [done|].
    destruct (String.eqb_spec m (name s)); [done|done].
  - rewrite !add_grades_cons. simpl.
    destruct (String.eqb_spec n (name s)); [|done].
    destruct (String.eqb_spec m (name s)); [done|done].
  - rewrite !add_grades_cons.
    destruct (String.eqb_spec n (name s)); [done|].
    destruct (String.eqb_spec m (name s)); [done|]. simpl.
    by rewrite IH.
Qed.

Lemma add_grades_commute_witness :
  "Bob" <> "Alice"
  /\ fst (add_grades "Bob" [1] (fst (add_grades "Alice" [2]
            [Student "Alice" []; Student "Bob" []])))
     = fst (add_grades "Alice" [2] (fst (add_grades "Bob" [1]
            [Student "Alice" []; Student "Bob" []]))).
Proof.
  assert (H : "Bob" <> "Alice") by discriminate.
  split; [exact H|]. exact (add_grades_commute "Bob" "Alice" [1] [2] _ H).
Defined.



(** X10: [add_new_student] never makes a student unknown: the roster it had
    is the beginning of the roster it leaves, and every name that
    [is_student_exists] found is still found. *)
Theorem add_new_student_keeps_students n students :
  (exists added, fst (add_new_student n students) = students ++ added)
  /\ forall m, is_student_exists m students = true ->
               is_student_exists m (fst (add_new_student n students)) = true.
Proof.
  unfold add_new_student.
  destruct (is_student_exists n students); simpl.
  - split; [exists []; by rewrite app_nil_r|done].
  - split; [by eexists|]. intros m Hm.
    apply is_student_exists_In. rewrite names_app. apply in_app_iff. left.
    by apply is_student_exists_In.
Qed.

(** X11: a new name in capitalized form can get its grades at once:
    [add_new_student] followed by [add_grades] for the same name returns
    normally and leaves the old roster followed by the new record with
    those grades. *)
Theorem add_new_student_then_add_grades n gs students :
  capitalize n = n ->
  is_student_exists n students = false ->
  add_grades n gs (fst (add_new_student n students))
  = (students ++ [Student n gs], Returned).
Proof.
  intros Hcap Hex. unfold add_new_student. rewrite Hex. simpl.
  apply add_grades_first_match.
  intros Hin. rewrite <- Hcap in Hin. apply is_student_exists_In in Hin. congruence.
Qed.

Lemma add_new_student_then_add_grades_witness :
  capitalize "Bob" = "Bob"
  /\ is_student_exists "Bob" [Student "Alice" [70]] = false
  /\ add_grades "Bob" [80; 90] (fst (add_new_student "Bob" [Student "Alice" [70]]))
     = ([Student "Alice" [70]] ++ [Student "Bob" [80; 90]], Returned).
Proof.
  split; [reflexivity|]. split; [reflexivity|].
  exact (add_new_student_then_add_grades "Bob" [80; 90] [Student "Alice" [70]]
           eq_refl eq_refl).
Defined.


(** ** How close the floats are *)

(** [nearest_even n d] is within one half of [n / d]. *)
Lemma nearest_even_spec n d :
  0 < d -> - d <= 2 * (nearest_even n d * d - n) <= d.
Proof.
  intros Hd. unfold nearest_even.
  pose proof (Z.div_mod n d ltac:(lia)) as Hdm.
  pose proof (Z.mod_pos_bound n d Hd) as Hr.
  destruct (Z.compare_spec (2 * (n mod d)) d) as [E|E|E];
    [destruct (Z.even (n / d))| |]; nia.
Qed.

Lemma nearest_even_exact k d : 0 < d -> nearest_even (k * d) d = k.
Proof.
  intros Hd. unfold nearest_even.
  rewrite Z.mod_mul, Z.div_mul by lia.
  destruct (Z.compare_spec (2 * 0) d); [lia|done|lia].
Qed.

Lemma binade_le n d : binade n d <= Z.log2 n - Z.log2 d.
Proof. unfold binade. destruct (_ <? _); lia. Qed.

(** Up to 100 a value is rounded with an error of at most [2^-46]. *)
Lemma round_finite_close q :
  (0 <= q)%Q -> (q <= 100)%Q ->
  (Qabs (round_finite q - q) <= 1 # 70368744177664)%Q.
Proof.
  destruct q as [n d]. intros H0 H100. unfold Qle in H0, H100.
  cbn [Qnum Qden] in H0, H100.
  assert (0 <= n) as Hn by lia. clear H0.
  unfold round_finite. cbn [Qnum Qden]. rewrite (Z.abs_eq n) by done.
  destruct (Z.eqb_spec n 0) as [->|Hnz].
  { apply Qabs_Qle_condition. unfold Qle, Qminus, Qplus, Qopp. simpl. lia. }
  assert ((n <? 0) = false) as -> by (apply Z.ltb_ge; lia).
  set (u := Z.max (binade n (Z.pos d) - 52) (-1074)).
  assert (u <= -45) as Hu.
  { pose proof (binade_le n (Z.pos d)) as Hb.
    assert (Z.log2 n <= 7 + Z.log2 (Z.pos d)) as Hlog.
    { rewrite <- Z.log2_mul_pow2 by lia.
      apply Z.log2_le_mono. change (2 ^ 7) with 128. lia. }
    unfold u. lia. }
  rewrite (Z.max_l 0 u), (Z.max_r 0 (- u)) by lia.
  change (2 ^ 0) with 1. rewrite !Z.mul_1_r.
  set (P := 2 ^ (- u)).
  assert (2 ^ 45 <= P) as HP by (apply Z.pow_le_mono_r; lia).
  set (m := nearest_even (n * P) (Z.pos d)).
  pose proof (nearest_even_spec (n * P) (Z.pos d) ltac:(lia)) as Hm.
  fold m in Hm.
  rewrite Qred_correct, (Qmake_Qdiv n d).
  assert (inject_Z (2 ^ 45) <= inject_Z P)%Q as HPq by (by rewrite <- Zle_Qle).
  assert (0 < inject_Z (Z.pos d))%Q as HDq
    by (change 0%Q with (inject_Z 0); by rewrite <- Zlt_Qlt).
  assert (inject_Z (- Z.pos d) <= inject_Z (2 * (m * Z.pos d + - (n * P))))%Q
    as Hlo by (rewrite <- Zle_Qle; lia).
  assert (inject_Z (2 * (m * Z.pos d + - (n * P))) <= inject_Z (Z.pos d))%Q
    as Hhi by (rewrite <- Zle_Qle; lia).
  repeat first [ rewrite inject_Z_mult in Hlo | rewrite inject_Z_plus in Hlo
               | rewrite inject_Z_opp in Hlo ].
  repeat first [ rewrite inject_Z_mult in Hhi | rewrite inject_Z_plus in Hhi
               | rewrite inject_Z_opp in Hhi ].
  change (inject_Z 2) with 2%Q in Hlo, Hhi.
  clear Hm HP.
  revert HPq HDq Hlo Hhi.
  generalize (inject_Z m) (inject_Z P) (inject_Z n) (inject_Z (Z.pos d)).
  change (inject_Z (2 ^ 45)) with (35184372088832 # 1)%Q.
  intros a p b c HPq HDq Hlo Hhi.
  assert (0 < p)%Q as Hp by lra.
  assert (a / p - b / c == (a * c - b * p) / (p * c))%Q as ->
    by (field; split; lra).
  assert (0 < p * c)%Q as Hpc by nra.
  apply Qabs_Qle_condition. split.
  - apply Qle_shift_div_l; [done|]. nra.
  - apply Qle_shift_div_r; [done|]. nra.
Qed.

(** A whole number up to 100 is a float. *)
Lemma round_finite_whole k n :
  0 <= k <= 100 -> 0 < n ->
  (round_finite (inject_Z (k * n) / inject_Z n) == inject_Z k)%Q.
Proof.
  intros Hk Hn.
  destruct n as [|d|d]; [lia| |lia].
  unfold round_finite.
  change (Qnum (inject_Z (k * Z.pos d) / inject_Z (Z.pos d)))
    with (k * Z.pos d * 1).
  change (Qden (inject_Z (k * Z.pos d) / inject_Z (Z.pos d)))
    with (1 * d)%positive.
  rewrite Z.mul_1_r, Pos.mul_1_l, (Z.abs_eq (k * Z.pos d)) by lia.
  destruct (Z.eqb_spec (k * Z.pos d) 0) as [E|Hnz].
  { assert (k = 0) as -> by lia. reflexivity. }
  assert ((k * Z.pos d <? 0) = false) as -> by (apply Z.ltb_ge; lia).
  set (u := Z.max (binade (k * Z.pos d) (Z.pos d) - 52) (-1074)).
  assert (u <= -45) as Hu.
  { pose proof (binade_le (k * Z.pos d) (Z.pos d)) as Hb.
    assert (Z.log2 (k * Z.pos d) <= 7 + Z.log2 (Z.pos d)) as Hlog.
    { rewrite <- Z.log2_mul_pow2 by lia.
      apply Z.log2_le_mono. change (2 ^ 7) with 128. nia. }
    unfold u. lia. }
  rewrite (Z.max_l 0 u), (Z.max_r 0 (- u)) by lia.
  change (2 ^ 0) with 1. rewrite !Z.mul_1_r.
  set (P := 2 ^ (- u)).
  assert (0 < P) as HP by (apply Z.pow_pos_nonneg; lia).
  replace (k * Z.pos d * P) with (k * P * Z.pos d) by lia.
  rewrite nearest_even_exact by lia.
  rewrite Qred_correct, inject_Z_mult. field.
  change 0%Q with (inject_Z 0). rewrite inject_Z_injective. lia.
Qed.

(** X29: for grades between 0 and 100 the average that the code computes,
    [sum(grades) / len(grades)], is a float within [2^-46] of the exact
    arithmetic mean, and it is the mean itself when that is a whole
    number. *)
Theorem average_of_close gs :
  gs <> [] -> Forall valid_grade gs ->
  exists v,
    average_of gs = inr (Finite v)
    /\ (Qabs (v - arithmetic_mean gs) <= 1 # 70368744177664)%Q
    /\ (forall k, sum_Z gs = k * len gs -> (v == inject_Z k)%Q).
Proof.
  intros Hne Hv.
  assert (Forall float_range gs) as Hr
    by (eapply Forall_impl; [exact Hv|]; apply valid_grade_float_range).
  assert (inject_Z 0 <= arithmetic_mean gs <= inject_Z 100)%Q as [H0 H100].
  { apply arithmetic_mean_bounds; [done|]. intros g Hg.
    rewrite Forall_forall in Hv. apply Hv. by apply list_elem_of_In. }
  exists (round_finite (arithmetic_mean gs)).
  destruct gs as [|g gs]; [done|].
  rewrite average_of_cons, rounded_mean_finite by done.
  split; [done|]. split; [by apply round_finite_close|].
  intros k Hk. rewrite sum_Z_foldr in Hk. unfold arithmetic_mean, len in *.
  assert (0 < Z.of_nat (length (g :: gs))) as Hlen by (simpl; lia).
  rewrite Hk. apply round_finite_whole; [|done].
  pose proof (foldr_add_bounds 0 100 (g :: gs)) as Hb.
  rewrite Forall_forall in Hv.
  specialize (Hb (fun x Hx => Hv x (proj2 (list_elem_of_In _ _) Hx))).
  nia.
Qed.

Lemma average_of_close_witness :
  [70; 80; 90] <> []
  /\ Forall valid_grade [70; 80; 90]
  /\ average_of [70; 80; 90] = inr (Finite 80)
  /\ exists v,
       average_of [70; 80; 90] = inr (Finite v)
       /\ (Qabs (v - arithmetic_mean [70; 80; 90]%Z) <= 1 # 70368744177664)%Q
       /\ (forall k, sum_Z [70; 80; 90] = k * len [70; 80; 90] ->
             (v == inject_Z k)%Q).
Proof.
  assert (Hv : Forall valid_grade [70; 80; 90])
    by (repeat constructor; intros E; discriminate E).
  split; [discriminate|]. split; [exact Hv|]. split; [reflexivity|].
  exact (average_of_close [70; 80; 90] ltac:(discriminate) Hv).
Defined.

(** ** The layout of the report *)

Lemma In_show_report_max g students :
  grades_in_float_range students ->
  In (MaxAverage g) (fst (show_report students)) ->
  exists g0 rest, concat (map grades students) = g0 :: rest /\ g = max_from g0 rest.
Proof.
  intros Hr. rewrite show_report_parts by done. simpl.
  rewrite !in_app_iff. intros [H|[H|H]].
  - apply In_student_lines in H as (H & _ & _). by destruct (H g).
  - apply In_min_max_lines in H as (g0 & rest & Hall & [H|H]); [|discriminate H].
    injection H as ->. eauto.
  - apply In_overall_lines in H as (q & H & _). discriminate H.
Qed.

Lemma In_show_report_average m q students :
  grades_in_float_range students ->
  In (AverageGrade m q) (fst (show_report students)) ->
  exists s, In s (graded students) /\ m = name s /\ q = rounded_mean (grades s).
Proof.
  intros Hr. rewrite show_report_parts by done. simpl.
  rewrite !in_app_iff. intros [H|[H|H]].
  - apply in_map_iff in H as (s & Hs & Hin). unfold student_line in Hs.
    destruct (grades s) as [|g gs] eqn:Hg; [discriminate Hs|].
    injection Hs as <- <-. exists s. split; [|by rewrite Hg].
    apply In_graded. split; [done|]. by rewrite Hg.
  - apply In_min_max_lines in H as (g0 & rest & _ & [H|H]); discriminate H.
  - apply In_overall_lines in H as (q' & H & _). discriminate H.
Qed.

Lemma all_grades_nil students :
  concat (map grades students) = [] <-> graded students = [].
Proof.
  rewrite graded_nil. split.
  - intros Hnil s Hs. destruct (grades s) as [|g gs] eqn:Hgs; [done|].
    assert (In g (concat (map grades students))) as Hin.
    { apply In_all_grades. exists s. split; [done|]. rewrite Hgs. by left. }
    by rewrite Hnil in Hin.
  - intros Hall. destruct (concat (map grades students)) as [|g l] eqn:E; [done|].
    assert (In g (concat (map grades students))) as Hin by (rewrite E; by left).
    apply In_all_grades in Hin as (s & Hs & Hg). by rewrite (Hall s Hs) in Hg.
Qed.

(** X14: the layout of the report, for grades and a number of students
    that convert to floats.  It starts with one line for each student,
    in roster order.  When no student has a grade these "N/A" lines are
    all of it; otherwise exactly three lines follow: the maximum, the
    minimum and the overall average, in this order.  Nothing is
    raised. *)
Theorem show_report_layout students :
  grades_in_float_range students ->
  float_range (len students) ->
  (graded students = [] ->
   show_report students
   = (map (fun s => AverageNA (name s)) students, Returned))
  /\ (graded students <> [] ->
      exists mx mn q,
        show_report students
        = (map student_line students
             ++ [MaxAverage mx; MinAverage mn; OverallAverage q],
           Returned)).
Proof.
  intros Hr Hlen. rewrite show_report_parts by done. split.
  - intros Hnil. unfold overall_lines. rewrite Hnil.
    rewrite (proj2 (all_grades_nil students) Hnil). simpl. rewrite app_nil_r.
    f_equal. apply map_ext_in. intros s Hs.
    unfold student_line. by rewrite (proj1 (graded_nil students) Hnil s Hs).
  - intros Hne.
    destruct (average_of_averages_defined students Hne Hlen) as [q Hq].
    unfold overall_lines. rewrite Hq.
    destruct (graded students) as [|s l] eqn:Hg; [done|].
    destruct (concat (map grades students)) as [|g0 rest] eqn:E.
    + apply all_grades_nil in E. by rewrite Hg in E.
    + simpl. eauto.
Qed.

Lemma show_report_layout_witness :
  let students := [Student "A" [70; 80; 90]; Student "B" []; Student "C" [100]] in
  grades_in_float_range students
  /\ float_range (len students)
  /\ show_report students
     = ([AverageGrade "A" (Finite 80); AverageNA "B"; AverageGrade "C" (Finite 100);
         MaxAverage 100; MinAverage 70; OverallAverage (Finite 90)], Returned)
  /\ exists mx mn q,
        show_report students
        = (map student_line students
             ++ [MaxAverage mx; MinAverage mn; OverallAverage q],
           Returned).
Proof.
  intros students.
  assert (Hr : grades_in_float_range students).
  { repeat constructor; intros E; discriminate E. }
  assert (Hlen : float_range (len students)) by (intros E; discriminate E).
  split; [exact Hr|]. split; [exact Hlen|]. split; [reflexivity|].
  exact (proj2 (show_report_layout students Hr Hlen) ltac:(discriminate)).
Defined.

(** ** The top performer and the report *)

Lemma float_gt_asym x y : float_gt x y = true -> float_gt y x = false.
Proof.
  destruct x as [a|[]|], y as [b|[]|]; simpl; try done.
  rewrite Qgt_bool_true, Qgt_bool_false. apply Qlt_le_weak.
Qed.

(** What [find_top_performer] prints, when it names a student: one of the
    students with grades, whose average no other such student exceeds. *)
Lemma find_top_performer_inv students n q :
  grades_in_float_range students ->
  find_top_performer students = ([TopPerformer n q], Returned) ->
  exists s,
    In s (graded students)
    /\ n = name s /\ q = rounded_mean (grades s)
    /\ forall s', In s' (graded students) ->
                  float_gt (rounded_mean (grades s')) q = false.
Proof.
  intros Hr Htop.
  assert (graded students <> []) as Hne.
  { intros Hnil. unfold find_top_performer, valid_students in Htop.
    rewrite valid_students_no_grades in Htop by (by apply graded_nil).
    discriminate Htop. }
  destruct (find_top_performer_graded students Hr Hne)
    as (a & s & b & Hsplit & Heq & Ha & Hb).
  rewrite Heq in Htop. injection Htop as <- <-.
  exists s. split; [rewrite Hsplit; apply in_app_iff; right; by left|].
  split; [done|]. split; [done|].
  intros s' Hs'. rewrite Hsplit in Hs'. apply in_app_iff in Hs' as [H|[<-|H]].
  - apply float_gt_asym. by apply Ha.
  - apply float_gt_irrefl.
  - by apply Hb.
Qed.

(** X15: for grades that convert to floats, the student that
    [find_top_performer] names has a line in the report with the same
    average, and no student's line in the report shows a greater one. *)
Theorem find_top_performer_in_report students n q :
  grades_in_float_range students ->
  find_top_performer students = ([TopPerformer n q], Returned) ->
  In (AverageGrade n q) (fst (show_report students))
  /\ (forall m q', In (AverageGrade m q') (fst (show_report students)) ->
        float_gt q' q = false).
Proof.
  intros Hr Htop.
  destruct (find_top_performer_inv _ _ _ Hr Htop) as (s & Hs & -> & -> & Hmax).
  pose proof Hs as Hs'. apply In_graded in Hs' as [Hin Hne]. split.
  - rewrite show_report_parts by done. simpl. apply in_app_iff. left.
    replace (AverageGrade (name s) (rounded_mean (grades s)))
      with (student_line s); [by apply in_map|].
    unfold student_line. by destruct (grades s).
  - intros m q' Hq'.
    apply In_show_report_average in Hq' as (s' & Hs'' & _ & ->); [|done].
    by apply Hmax.
Qed.

Lemma find_top_performer_in_report_witness :
  let students := [Student "A" [90]; Student "B" [80; 100]; Student "C" []] in
  grades_in_float_range students
  /\ find_top_performer students = ([TopPerformer "A" (Finite 90)], Returned)
  /\ In (AverageGrade "A" (Finite 90)) (fst (show_report students))
  /\ (forall m q', In (AverageGrade m q') (fst (show_report students)) ->
        float_gt q' (Finite 90) = false).
Proof.
  intros students.
  assert (Hr : grades_in_float_range students).
  { repeat constructor; intros E; discriminate E. }
  split; [exact Hr|]. split; [reflexivity|].
  exact (find_top_performer_in_report students "A" (Finite 90) Hr eq_refl).
Defined.

(** X16: for grades that convert to floats, [find_top_performer] prints
    the "No top student found" line exactly when no student has a grade,
    that is, exactly when the report prints no maximum. *)
Theorem find_top_performer_none_iff students :
  grades_in_float_range students ->
  (find_top_performer students = ([no_top_student], Returned)
   <-> forall s, In s students -> grades s = [])
  /\ (find_top_performer students = ([no_top_student], Returned)
      <-> forall g, ~ In (MaxAverage g) (fst (show_report students))).
Proof.
  intros Hr.
  assert (find_top_performer students = ([no_top_student], Returned)
          <-> graded students = []) as Hiff.
  { split.
    - intros Htop. destruct (graded students) as [|x l] eqn:Hg; [done|].
      destruct (find_top_performer_graded students Hr) as (a & s & b & _ & Heq & _);
        [by rewrite Hg|].
      rewrite Heq in Htop. discriminate Htop.
    - intros Hnil. unfold find_top_performer, valid_students.
      rewrite valid_students_no_grades; [done|]. by apply graded_nil. }
  split.
  - rewrite Hiff. apply graded_nil.
  - rewrite Hiff. split.
    + intros Hnil g Hg. apply In_show_report_max in Hg as (g0 & rest & Hall & _);
        [|done].
      apply all_grades_nil in Hnil. by rewrite Hnil in Hall.
    + intros Hno. apply all_grades_nil.
      destruct (concat (map grades students)) as [|g0 rest] eqn:Hall; [done|].
      exfalso. apply (Hno (max_from g0 rest)).
      rewrite show_report_parts by done. simpl. rewrite Hall.
      apply in_app_iff. right. apply in_app_iff. left. by left.
Qed.

Lemma find_top_performer_none_iff_witness :
  let students := [Student "A" []; Student "B" []] in
  grades_in_float_range students
  /\ find_top_performer students = ([no_top_student], Returned)
  /\ (forall s, In s students -> grades s = [])
  /\ (forall g, ~ In (MaxAverage g) (fst (show_report students))).
Proof.
  intros students.
  assert (Hr : grades_in_float_range students) by (repeat constructor).
  pose proof (find_top_performer_none_iff students Hr) as [H1 H2].
  split; [exact Hr|]. split; [reflexivity|]. split.
  - exact (proj1 H1 eq_refl).
  - exact (proj1 H2 eq_refl).
Defined.

(** X28: a grade that is too large for a float stops the report: the
    division that gives the student's average raises [OverflowError]
    before anything is printed. *)
Theorem show_report_overflow n g rest :
  overflow_threshold <= Z.abs g ->
  show_report (Student n [g] :: rest) = ([], Raised OverflowError).
Proof.
  intros Hg. unfold show_report. cbn [report_students].
  unfold report_student. cbn [grades].
  assert (average_of [g] = inl OverflowError) as ->; [|done].
  unfold average_of, int_truediv, sum_Z, len. cbn [fold_left length].
  change (Z.of_nat 1) with 1. change (1 =? 0) with false. cbv iota.
  unfold float_round.
  assert (Qle_bool (inject_Z overflow_threshold)
            (Qabs (inject_Z (0 + g) / inject_Z 1)) = true) as ->; [|done].
  apply Qle_bool_iff.
  assert (inject_Z (0 + g) / inject_Z 1 == inject_Z g)%Q as ->.
  { rewrite Z.add_0_l. change (inject_Z 1) with 1%Q. field. }
  rewrite Qabs_inject_Z, <- Zle_Qle. done.
Qed.

Lemma show_report_overflow_witness :
  overflow_threshold <= Z.abs (10 ^ 400)
  /\ show_report [Student "A" [10 ^ 400]; Student "B" [50]]
     = ([], Raised OverflowError).
Proof.
  assert (H : overflow_threshold <= Z.abs (10 ^ 400))
    by (intros E; vm_compute in E; discriminate E).
  split; [exact H|].
  exact (show_report_overflow "A" (10 ^ 400) [Student "B" [50]] H).
Defined.

(** ** Runs of main *)

Lemma effect_after out o : effect (after out o) = effect o.
Proof. by destruct o as [[o1 st] cm]. Qed.

(** While no more reads in a row fail than the recursion limit allows,
    [user_input] returns what it returns on the typed lines alone. *)
Lemma user_input_typed_only limit c : forall run retries retries',
  runs_within limit run c = true ->
  (limit <= run + retries)%nat ->
  user_input retries' (typed_only c)
  = ([], match snd (user_input retries c) with
         | inl e => inl e
         | inr (s, c') => inr (s, typed_only c')
         end).
Proof.
  induction c as [|e rest IH]; intros run retries retries' Hr Hlim.
  - by destruct retries'.
  - destruct e; cbn [runs_within] in Hr; [done| |];
      apply andb_prop in Hr as [Hrun Hr]; apply Nat.leb_le in Hrun;
      (destruct retries as [|retries]; [lia|]);
      simpl; rewrite (IH (S run) retries retries' Hr) by lia;
      by destruct (user_input retries rest).
Qed.

Lemma user_input_runs_within limit c : forall run retries out s c',
  runs_within limit run c = true ->
  user_input retries c = (out, inr (s, c')) ->
  runs_within limit 0 c' = true.
Proof.
  induction c as [|e rest IH]; intros run retries out s c' Hr; [done|].
  destruct e; cbn [runs_within] in Hr; simpl.
  - by intros [= _ _ <-].
  - apply andb_prop in Hr as [_ Hr]. destruct retries as [|retries]; [done|].
    destruct (user_input retries rest) as [o r] eqn:Hu. intros [= _ ->].
    by eapply IH.
  - apply andb_prop in Hr as [_ Hr]. destruct retries as [|retries]; [done|].
    destruct (user_input retries rest) as [o r] eqn:Hu. intros [= _ ->].
    by eapply IH.
Qed.

Lemma length_typed_only c : (length (typed_only c) <= length c)%nat.
Proof. apply filter_length_le. Qed.

Lemma user_input_Forall (P : console_event -> Prop) retries c out s c' :
  Forall P c -> user_input retries c = (out, inr (s, c')) -> Forall P c'.
Proof.
  intros HP Hu. destruct (user_input_inv _ _ _ _ _ Hu) as (sk & line & -> & _ & _).
  apply Forall_app in HP as [_ HP]. by apply Forall_cons in HP as [_ HP].
Qed.

Section Runs.
Variable int : string -> option Z.
Variable headroom : nat.

(** What [user_input] keeps true of the console, [input_grades] keeps
    true of it. *)
Lemma input_grades_loop_keeps (Q : console -> Prop) :
  (forall c out s c', Q c -> user_input headroom c = (out, inr (s, c')) -> Q c') ->
  forall fuel gs c out gs' c',
    Q c ->
    input_grades_loop int headroom fuel gs c = (out, inr (gs', c')) -> Q c'.
Proof.
  intros HQ.
  induction fuel as [|fuel IH]; intros gs c out gs' c' Hc; simpl; [done|].
  unfold bind at 1.
  destruct (user_input headroom c) as [o [e|[s c1]]] eqn:Hu; [done|].
  pose proof (HQ _ _ _ _ Hc Hu) as Hc1.
  destruct (String.eqb (lower s) "done").
  - unfold ret. by intros [= _ _ <-].
  - destruct (int s) as [g|]; [destruct ((0 <=? g) && (g <=? 100))|];
      unfold bind, print; simpl;
      destruct (input_grades_loop int headroom fuel _ c1) as [o1 r1] eqn:Hr;
      intros [= _ ->]; by apply (IH _ _ _ _ _ Hc1 Hr).
Qed.

Lemma input_grades_loop_Forall (P : console_event -> Prop) fuel gs c out gs' c' :
  Forall P c ->
  input_grades_loop int headroom fuel gs c = (out, inr (gs', c')) -> Forall P c'.
Proof.
  apply (input_grades_loop_keeps (Forall P)).
  intros c0 out0 s c0'. apply user_input_Forall.
Qed.

Lemma input_grades_runs_within c out gs' c' :
  runs_within headroom 0 c = true ->
  input_grades int headroom c = (out, inr (gs', c')) ->
  runs_within headroom 0 c' = true.
Proof.
  apply (input_grades_loop_keeps (fun c => runs_within headroom 0 c = true)).
  intros c0 out0 s c0'. apply user_input_runs_within.
Qed.

Lemma input_grades_loop_typed_only fuel : forall gs c,
  (length c <= fuel)%nat ->
  runs_within headroom 0 c = true ->
  snd (input_grades_loop int headroom fuel gs (typed_only c))
  = match snd (input_grades_loop int headroom fuel gs c) with
    | inl e => inl e
    | inr (gs', c') => inr (gs', typed_only c')
    end.
Proof.
  induction fuel as [|fuel IH]; intros gs c Hlen Hr; [done|].
  cbn [input_grades_loop].
  rewrite !snd_bind,
    (user_input_typed_only headroom c 0 headroom headroom Hr) by lia.
  simpl.
  destruct (user_input headroom c) as [o [e|[s c1]]] eqn:Hu; simpl; [done|].
  pose proof (user_input_runs_within _ _ _ _ _ _ _ Hr Hu) as Hr1.
  apply user_input_shorter in Hu.
  destruct (String.eqb (lower s) "done"); [done|].
  destruct (int s) as [g|]; [destruct ((0 <=? g) && (g <=? 100))|];
    rewrite ?snd_bind; simpl; apply IH; (lia || done).
Qed.

Lemma input_grades_typed_only c :
  runs_within headroom 0 c = true ->
  snd (input_grades int headroom (typed_only c))
  = match snd (input_grades int headroom c) with
    | inl e => inl e
    | inr (gs', c') => inr (gs', typed_only c')
    end.
Proof.
  intros Hr. unfold input_grades.
  rewrite (input_grades_loop_fuel int headroom (length (typed_only c)) (length c))
    by (pose proof (length_typed_only c); lia).
  by apply input_grades_loop_typed_only.
Qed.

Lemma main_loop_typed_only fuel : forall students c,
  (length c < fuel)%nat ->
  runs_within headroom 0 c = true ->
  effect (main_loop int headroom fuel students (typed_only c))
  = effect (main_loop int headroom fuel students c).
Proof.
  induction fuel as [|fuel IH]; intros students c Hlen Hr; [lia|].
  cbn [main_loop]. unfold bind, print. cbn beta iota.
  rewrite (user_input_typed_only headroom c 0 (S headroom) (S headroom) Hr) by lia.
  destruct (user_input (S headroom) c) as [o [e|[choice c1]]] eqn:Hu; simpl; [done|].
  pose proof (user_input_runs_within _ _ _ _ _ _ _ Hr Hu) as Hr1.
  apply user_input_shorter in Hu. rewrite !effect_after.
  destruct (String.eqb choice "1").
  { rewrite (user_input_typed_only headroom c1 0 (S headroom) (S headroom) Hr1)
      by lia.
    destruct (user_input (S headroom) c1) as [o1 [e|[student_name c2]]] eqn:Hu1;
      simpl; [done|].
    pose proof (user_input_runs_within _ _ _ _ _ _ _ Hr1 Hu1) as Hr2.
    apply user_input_shorter in Hu1.
    destruct (add_new_student student_name students) as [students' out'].
    rewrite !effect_after. apply IH; [lia|done]. }
  destruct (String.eqb choice "2").
  { rewrite (user_input_typed_only headroom c1 0 (S headroom) (S headroom) Hr1)
      by lia.
    destruct (user_input (S headroom) c1) as [o1 [e|[student_name c2]]] eqn:Hu1;
      simpl; [done|].
    pose proof (user_input_runs_within _ _ _ _ _ _ _ Hr1 Hu1) as Hr2.
    apply user_input_shorter in Hu1.
    destruct (negb (is_student_exists student_name students)).
    { rewrite !effect_after. apply IH; [lia|done]. }
    pose proof (input_grades_typed_only c2 Hr2) as Hi.
    destruct (input_grades int headroom (typed_only c2)) as [o2' r2'].
    destruct (input_grades int headroom c2) as [o2 [e|[gs c3]]] eqn:Hi2;
      simpl in Hi; subst r2'; [done|].
    pose proof (input_grades_runs_within _ _ _ _ Hr2 Hi2) as Hr3.
    apply input_grades_sound in Hi2 as [_ Hlen3].
    destruct (add_grades student_name gs students) as [students' [|e]]; [|done].
    rewrite !effect_after. apply IH; [lia|done]. }
  destruct (String.eqb choice "3").
  { destruct (show_report students) as [o3 [|e]]; [|done].
    rewrite !effect_after. apply IH; [lia|done]. }
  destruct (String.eqb choice "4").
  { destruct (find_top_performer students) as [o4 [|e]]; [|done].
    rewrite !effect_after. apply IH; [lia|done]. }
  destruct (String.eqb choice "5"); [done|].
  rewrite !effect_after. apply IH; [lia|done].
Qed.

(** X17: pressing Ctrl-C at a prompt, or a failed read, changes nothing
    but what is printed, as long as no more reads in a row fail than
    the recursion limit allows: a run of [main] leaves the same roster
    and ends the same way as the run on the lines typed alone. *)
Theorem main_ignores_interrupts c :
  runs_within headroom 0 c = true ->
  effect (main int headroom c) = effect (main int headroom (typed_only c)).
Proof.
  intros Hr. unfold main.
  rewrite (main_loop_fuel int headroom (S (length (typed_only c))) (S (length c)))
    by (pose proof (length_typed_only c); lia).
  symmetry. apply main_loop_typed_only; [lia|done].
Qed.

Lemma main_loop_never_exits fuel : forall students c,
  never_exits c ->
  exists e, final_completion (main_loop int headroom fuel students c) = Raised e.
Proof.
  induction fuel as [|fuel IH]; intros students c Hc; [by eexists|].
  cbn [main_loop]. unfold bind, print.
  destruct (user_input (S headroom) c) as [o [e|[choice c1]]] eqn:Hu;
    cbn beta iota; [by eexists|].
  rewrite final_completion_after.
  pose proof (user_input_Forall _ _ _ _ _ _ Hc Hu) as Hc1.
  destruct (user_input_inv _ _ _ _ _ Hu) as (sk & line & -> & _ & ->).
  apply Forall_app in Hc as [_ Hc]. apply Forall_cons in Hc as [Hline _].
  destruct (String.eqb (capitalize line) "1").
  { destruct (user_input (S headroom) c1) as [o1 [e|[student_name c2]]] eqn:Hu1;
      [by eexists|].
    pose proof (user_input_Forall _ _ _ _ _ _ Hc1 Hu1) as Hc2.
    destruct (add_new_student student_name students) as [students' out'].
    rewrite final_completion_after. by apply IH. }
  destruct (String.eqb (capitalize line) "2").
  { destruct (user_input (S headroom) c1) as [o1 [e|[student_name c2]]] eqn:Hu1;
      [by eexists|].
    pose proof (user_input_Forall _ _ _ _ _ _ Hc1 Hu1) as Hc2.
    destruct (negb (is_student_exists student_name students)).
    { rewrite final_completion_after. by apply IH. }
    destruct (input_grades int headroom c2) as [o2 [e|[gs c3]]] eqn:Hi; [by eexists|].
    pose proof (input_grades_loop_Forall _ _ _ _ _ _ _ Hc2 Hi) as Hc3.
    destruct (add_grades student_name gs students) as [students' [|e]]; [|by eexists].
    rewrite final_completion_after. by apply IH. }
  destruct (String.eqb (capitalize line) "3").
  { destruct (show_report students) as [o3 [|e]]; [|by eexists].
    rewrite final_completion_after. by apply IH. }
  destruct (String.eqb (capitalize line) "4").
  { destruct (find_top_performer students) as [o4 [|e]]; [|by eexists].
    rewrite final_completion_after. by apply IH. }
  destruct (String.eqb_spec (capitalize line) "5"); [done|].
  rewrite final_completion_after. by apply IH.
Qed.

(** X18: the menu choice "5" is the only normal way out of [main]: on a
    console where "5" is never typed the run ends in an exception. *)
Theorem main_needs_exit_choice c :
  never_exits c -> exists e, final_completion (main int headroom c) = Raised e.
Proof. apply main_loop_never_exits. Qed.

(** X19: a run of [main] never removes, renames or reorders students: the
    names it started with are the beginning of the names it ends with. *)
Theorem main_loop_keeps_students fuel students c :
  exists added,
    names (final_roster (main_loop int headroom fuel students c))
    = names students ++ added.
Proof.
  apply (main_loop_invariant int headroom (fun _ => True)
           ltac:(done)
           (fun r => exists added, names r = names students ++ added)).
  - intros n sts _ [added Hsts]. unfold add_new_student.
    destruct (is_student_exists n sts); simpl; [by exists added|].
    exists (added ++ [n]). by rewrite names_app, Hsts, <- app_assoc.
  - intros n gs sts _ [added Hsts]. exists added. by rewrite add_grades_names.
  - exists []. by rewrite app_nil_r.
Qed.

(** X20: on the ASCII text of this model, every name that a run of [main]
    stores is in capitalized form and no two records have the same name. *)
Theorem main_stores_distinct_names c :
  Forall (fun s => capitalize (name s) = name s) (final_roster (main int headroom c))
  /\ NoDup (names (final_roster (main int headroom c))).
Proof. apply main_loop_names_valid. split; constructor. Qed.

(** X21: on the ASCII text of this model, neither [add_grades] nor the
    report nor the search for the top performer raises inside [main]:
    a run ends by the menu choice "5", by the end of the console
    ([EOFError]) or, after too many failed reads in a row, by
    [RecursionError], whatever is typed.  The console is taken to be no
    longer than the largest float, so that the number of students
    converts to a float. *)
Theorem main_ends_by_exit_or_input c :
  float_range (len c) ->
  final_completion (main int headroom c) = Returned
  \/ final_completion (main int headroom c) = Raised EOFError
  \/ final_completion (main int headroom c) = Raised RecursionError.
Proof. intros Hc. apply main_loop_completion; [constructor|done]. Qed.

End Runs.

Lemma main_ignores_interrupts_witness :
  let c := [Interrupt; Typed "1"; InputFailure; Interrupt; Typed "alice"; Typed "5"] in
  runs_within 2 0 c = true
  /\ typed_only c = map Typed ["1"; "alice"; "5"]
  /\ effect (main int_decimal 2 c) = ([Student "Alice" []], Returned)
  /\ effect (main int_decimal 2 c) = effect (main int_decimal 2 (typed_only c)).
Proof.
  intros c. split; [reflexivity|]. split; [reflexivity|]. split; [reflexivity|].
  exact (main_ignores_interrupts int_decimal 2 c eq_refl).
Defined.

Lemma main_needs_exit_choice_witness :
  never_exits (map Typed ["1"; "alice"; "3"])
  /\ exists e, final_completion (main int_decimal 995 (map Typed ["1"; "alice"; "3"]))
               = Raised e.
Proof.
  assert (H : never_exits (map Typed ["1"; "alice"; "3"])).
  { repeat constructor; discriminate. }
  split; [exact H|]. exact (main_needs_exit_choice int_decimal 995 _ H).
Defined.

Lemma main_ends_by_exit_or_input_witness :
  let c := [Typed "1"; Typed "alice"; Typed "3"; Interrupt; Interrupt; Interrupt] in
  float_range (len c)
  /\ final_completion (main int_decimal 1 c) = Raised RecursionError
  /\ final_completion (main int_decimal 2 c) = Raised EOFError
  /\ (final_completion (main int_decimal 1 c) = Returned
      \/ final_completion (main int_decimal 1 c) = Raised EOFError
      \/ final_completion (main int_decimal 1 c) = Raised RecursionError).
Proof.
  intros c.
  assert (H : float_range (len c)) by (intros E; discriminate E).
  split; [exact H|]. split; [reflexivity|]. split; [reflexivity|].
  exact (main_ends_by_exit_or_input int_decimal 1 c H).
Defined.

(** ** Menu commands, typed in full *)

Lemma is_student_exists_capitalize n students :
  is_student_exists (capitalize n) students = is_student_exists n students.
Proof. unfold is_student_exists. by rewrite capitalize_idem. Qed.

Section Commands.
Variable int : string -> option Z.
Variable headroom : nat.

(** X22: the menu command "2" typed in full.  For a name that
    [is_student_exists] finds (in whatever case it is typed), followed by
    grade lines and "done", the run goes on with the roster in which the
    first record of that name, capitalized, holds exactly the lines that
    read as grades between 0 and 100, and with the rest of the console. *)
Theorem main_loop_command_2 fuel students n lines d rest :
  is_student_exists n students = true ->
  Forall (fun line => ~ case_variant line "done") lines ->
  case_variant d "done" ->
  exists pre g0 post,
    students = pre ++ Student (capitalize n) g0 :: post
    /\ ~ In (capitalize n) (names pre)
    /\ effect (main_loop int headroom (S fuel) students
                 (Typed "2" :: Typed n :: map Typed lines ++ Typed d :: rest))
       = effect (main_loop int headroom fuel
                   (pre ++ Student (capitalize n) (omap (grade_of_line int) lines) :: post)
                   rest).
Proof.
  intros Hex Hl Hd.
  rewrite <- is_student_exists_capitalize in Hex.
  destruct (add_grades_of_exists (capitalize n) (omap (grade_of_line int) lines)
              students (capitalize_idem n) Hex)
    as (pre & g0 & post & Hst & Hpre & Hadd).
  exists pre, g0, post. split; [done|]. split; [done|].
  cbn [main_loop]. unfold bind at 1, print. cbn [user_input].
  change (capitalize "2") with "2".
  cbn [String.eqb Ascii.eqb Bool.eqb]. rewrite Hex. cbn [negb].
  rewrite (input_grades_lines int headroom lines d rest Hl Hd). rewrite Hadd.
  by rewrite !effect_after.
Qed.

(** X23: the menu command "1" typed twice for the same name, in whatever
    case: the second time nothing is added, so the run goes on from the
    roster that the first time left. *)
Theorem main_loop_command_1_twice fuel students n v rest :
  case_variant v n ->
  effect (main_loop int headroom (S (S fuel)) students
            (Typed "1" :: Typed n :: Typed "1" :: Typed v :: rest))
  = effect (main_loop int headroom fuel
              (fst (add_new_student (capitalize n) students)) rest).
Proof.
  intros Hv.
  assert (is_student_exists (capitalize v)
            (fst (add_new_student (capitalize n) students)) = true) as Hex.
  { rewrite (capitalize_case_variant _ _ Hv). apply is_student_exists_In.
    rewrite capitalize_idem. unfold add_new_student.
    destruct (is_student_exists (capitalize n) students) eqn:E; simpl.
    - apply is_student_exists_In in E. by rewrite capitalize_idem in E.
    - rewrite names_app. apply in_app_iff. right. by left. }
  cbn [main_loop]. unfold bind, print. cbn [user_input].
  change (capitalize "1") with "1".
  cbn [String.eqb Ascii.eqb Bool.eqb].
  destruct (add_new_student (capitalize n) students) as [students' out'] eqn:Hadd.
  simpl in Hex. rewrite !effect_after.
  unfold add_new_student. rewrite Hex. by rewrite effect_after.
Qed.

End Commands.

Lemma main_loop_command_2_witness :
  is_student_exists "aLICE" [Student "Bob" [1]; Student "Alice" [2]] = true
  /\ Forall (fun line => ~ case_variant line "done") ["90"; "abc"; "100"]
  /\ case_variant "done" "done"
  /\ exists pre g0 post,
       [Student "Bob" [1]; Student "Alice" [2]]
       = pre ++ Student (capitalize "aLICE") g0 :: post
       /\ ~ In (capitalize "aLICE") (names pre)
       /\ effect (main_loop int_decimal 995 3 [Student "Bob" [1]; Student "Alice" [2]]
                    (Typed "2" :: Typed "aLICE"
                       :: map Typed ["90"; "abc"; "100"] ++ Typed "done" :: [Typed "5"]))
          = effect (main_loop int_decimal 995 2
                      (pre ++ Student (capitalize "aLICE")
                                (omap (grade_of_line int_decimal) ["90"; "abc"; "100"])
                              :: post)
                      [Typed "5"]).
Proof.
  assert (H : Forall (fun line => ~ case_variant line "done") ["90"; "abc"; "100"])
    by (repeat constructor; discriminate).
  split; [reflexivity|]. split; [exact H|]. split; [reflexivity|].
  exact (main_loop_command_2 int_decimal 995 2 [Student "Bob" [1]; Student "Alice" [2]]
           "aLICE" ["90"; "abc"; "100"] "done" [Typed "5"] eq_refl H eq_refl).
Defined.

Lemma main_loop_command_1_twice_witness :
  case_variant "ALICE" "alice"
  /\ effect (main_loop int_decimal 995 3 []
               (Typed "1" :: Typed "alice" :: Typed "1" :: Typed "ALICE" :: [Typed "5"]))
     = effect (main_loop int_decimal 995 1
                 (fst (add_new_student (capitalize "alice") [])) [Typed "5"])
  /\ effect (main_loop int_decimal 995 3 []
               (Typed "1" :: Typed "alice" :: Typed "1" :: Typed "ALICE" :: [Typed "5"]))
     = ([Student "Alice" []], Returned).
Proof.
  split; [reflexivity|]. split; [|reflexivity].
  exact (main_loop_command_1_twice int_decimal 995 1 [] "alice" "ALICE" [Typed "5"] eq_refl).
Defined.
(** ** The profile script *)

(** X24: [generate_profile] by age.  Ages 1 to 12 are "Child" and 14 to 19
    are "Teenager"; "Adult" is the answer for 13, for 20 and for every age
    of 0 or less, and an age above 20 gets no answer at all. *)
Theorem generate_profile_by_age age :
  (Profile.generate_profile age = Some "Child" <-> 1 <= age <= 12)
  /\ (Profile.generate_profile age = Some "Teenager" <-> 14 <= age <= 19)
  /\ (Profile.generate_profile age = Some "Adult"
      <-> age <= 0 \/ age = 13 \/ age = 20)
  /\ (Profile.generate_profile age = None <-> 20 < age).
Proof.
  unfold Profile.generate_profile, Z.geb.
  destruct (Z.ltb_spec 0 age); destruct (Z.leb_spec age 12);
    destruct (Z.ltb_spec 13 age); destruct (Z.leb_spec age 19);
    destruct (Z.compare_spec 20 age); simpl;
    repeat split; intros; try discriminate; try lia; try reflexivity.
Qed.

Lemma get_hobbies_loop_lines lines : forall hobbies d rest,
  Forall (fun line => ~ case_variant line "stop") lines ->
  case_variant d "stop" ->
  Profile.get_hobbies_loop hobbies (map Typed lines ++ Typed d :: rest)
  = inr (hobbies ++ map lower lines, rest).
Proof.
  induction lines as [|line lines IH]; intros hobbies d rest Hl Hd; simpl.
  - unfold case_variant in Hd. simpl in Hd. rewrite Hd. simpl.
    by rewrite app_nil_r.
  - apply Forall_cons in Hl as [Hline Hl].
    destruct (String.eqb_spec (lower line) "stop") as [E|E]; [by destruct Hline|].
    rewrite (IH _ d rest Hl Hd). by rewrite <- app_assoc.
Qed.

(** X25: [get_hobbies] returns the lines typed before "stop", each in
    lower case and in the order typed; "stop" is recognised in any case,
    and what follows it on the console is left unread. *)
Theorem get_hobbies_before_stop lines d rest :
  Forall (fun line => ~ case_variant line "stop") lines ->
  case_variant d "stop" ->
  Profile.get_hobbies (map Typed lines ++ Typed d :: rest)
  = inr (map lower lines, rest).
Proof. intros Hl Hd. by apply (get_hobbies_loop_lines lines []). Qed.

Lemma get_hobbies_before_stop_witness :
  Forall (fun line => ~ case_variant line "stop") ["Chess"; "ROCK climbing"]
  /\ case_variant "Stop" "stop"
  /\ Profile.get_hobbies (map Typed ["Chess"; "ROCK climbing"] ++ Typed "Stop" :: [Typed "x"])
     = inr (["chess"; "rock climbing"], [Typed "x"]).
Proof.
  assert (H : Forall (fun line => ~ case_variant line "stop") ["Chess"; "ROCK climbing"])
    by (repeat constructor; discriminate).
  split; [exact H|]. split; [reflexivity|].
  exact (get_hobbies_before_stop _ "Stop" [Typed "x"] H eq_refl).
Defined.

Lemma get_hobbies_loop_lower c : forall hobbies out rest,
  Forall (fun h => lower h = h /\ h <> "stop") hobbies ->
  Profile.get_hobbies_loop hobbies c = inr (out, rest) ->
  Forall (fun h => lower h = h /\ h <> "stop") out.
Proof.
  induction c as [|e c IH]; intros hobbies out rest Hh; simpl; [done|].
  destruct e; [|done|done].
  destruct (String.eqb_spec (lower line) "stop") as [E|E].
  - by intros [= <- _].
  - apply IH. apply Forall_app. split; [done|]. apply Forall_singleton.
    split; [apply lower_idem|done].
Qed.

(** X26: whatever is typed, a list that [get_hobbies] returns holds only
    lower-case text and never the word "stop". *)
Theorem get_hobbies_lower_case c hobbies rest :
  Profile.get_hobbies c = inr (hobbies, rest) ->
  Forall (fun h => lower h = h /\ h <> "stop") hobbies.
Proof. apply get_hobbies_loop_lower. constructor. Qed.

Lemma get_hobbies_lower_case_witness :
  Profile.get_hobbies [Typed "Chess"; Typed "STOP"; Typed "x"]
  = inr (["chess"], [Typed "x"])
  /\ Forall (fun h => lower h = h /\ h <> "stop") ["chess"].
Proof.
  split; [reflexivity|].
  exact (get_hobbies_lower_case [Typed "Chess"; Typed "STOP"; Typed "x"]
           ["chess"] [Typed "x"] eq_refl).
Defined.
